(** * go-libs: the logging facade over zap, and its error-check helper

    A shallow embedding of the repository's four source texts

      - [src/golog/golog.go]            package golog   (module [Golog])
      - [src/log/log.go]                package log     (module [Log])
      - [src/unnamed/part_000]          package log     (module [LogInPlace])
      - [src/golog/golog_test.go], the package-log text carried after the
        tests (lines 113-290)                           (module [LogPairs])

    They share [NewLogger], [InitLogger], [GetLogger] and the twelve
    forwarding functions word for word; they differ in [CheckErr].

    Package state (the [once] guard and the [logger] pointer), what the
    logger was handed and what it has written, the store of slice backing
    arrays and the outside world are threaded through a small
    state-and-outcome monad.  What lives
    outside the repository (net/http/httputil, fmt, the Go runtime's slice
    growth, the decisions of zap's sampler) is taken through the class
    [Externals]; zap's sugared logger is written out from its source
    (sugar.go, logger.go, config.go of go.uber.org/zap 1.24 and later):
    the threshold, the message of the printf forms, the fields it makes of
    the alternating keys and values with its own complaints about them, the
    sampler of the production configuration and the terminal behaviour of
    the panic and fatal levels.

    The state keeps two logs.  [output] is the list of the leveled calls
    that passed the logger's threshold, each with the arguments as the
    package handed them over; [records] is what zap's core wrote for them. *)

From stdpp Require Import base option list strings.
From Stdlib Require Import ZArith Lia Ascii.

Set Warnings "-register-all".
Local Open Scope string_scope.
Local Open Scope list_scope.

(** ** Values *)

(** A Go [error] that is not nil; [ErrorText] is the result of its
    [Error()] method.  An [error] variable is an [option GoError], nil
    being [None]. *)
Record GoError := mkError { ErrorText : string }.

(** The dynamic values an [interface{}] argument holds.  The source tests a
    value for [*http.Response] only; everything else goes through untouched.
    [VResponse r] is a pointer to a response that is there (not a nil
    pointer of that type); [VError e] an error that is not nil. *)
Inductive value {Response : Type} : Type :=
| VNil
| VString (s : string)
| VInt (z : Z)
| VError (e : GoError)
| VResponse (r : Response)
| VSlice (l : list value).
Arguments value : clear implicits.

(** zap's levels, with zapcore's numbers. *)
Inductive Level := DebugLevel | InfoLevel | WarnLevel | ErrorLevel
                 | DPanicLevel | PanicLevel | FatalLevel.

Definition level_num (l : Level) : Z :=
  match l with
  | DebugLevel => -1 | InfoLevel => 0 | WarnLevel => 1 | ErrorLevel => 2
  | DPanicLevel => 3 | PanicLevel => 4 | FatalLevel => 5
  end%Z.

Definition level_eqb (a b : Level) : bool := (level_num a =? level_num b)%Z.

(** zapcore's [LevelEnabler]: a threshold lets a level through when the
    level is at least the threshold. *)
Definition Enabled (threshold l : Level) : bool :=
  (level_num threshold <=? level_num l)%Z.

(** [zap.Config], the fields the behaviour of the source depends on.
    [Sampling] is [*SamplingConfig]: nil, or [Initial] and [Thereafter]. *)
Record Config := mkConfig {
  Level_ : Level;
  Development : bool;
  Encoding : string;
  Sampling : option (nat * nat)
}.

(** [zap.NewDevelopmentConfig()]: "Defaults to DebugLevel" (source comment);
    no sampling. *)
Definition NewDevelopmentConfig : Config :=
  {| Level_ := DebugLevel; Development := true; Encoding := "console";
     Sampling := None |}.

(** [zap.NewProductionConfig()]: "Defaults to InfoLevel" (source comment);
    [Sampling: &SamplingConfig{Initial: 100, Thereafter: 100}]. *)
Definition NewProductionConfig : Config :=
  {| Level_ := InfoLevel; Development := false; Encoding := "json";
     Sampling := Some (100, 100) |}.

Definition with_Encoding (c : Config) (enc : string) : Config :=
  {| Level_ := Level_ c; Development := Development c; Encoding := enc;
     Sampling := Sampling c |}.

(** A built [*zap.SugaredLogger] keeps the configuration it was built from. *)
Record SugaredLogger := mkSugared { config : Config }.

(** [type Logger struct { sugaredLogger *zap.SugaredLogger }], behind a
    pointer; [handle] is the identity of the allocation. *)
Record Logger := mkLogger { handle : nat; sugaredLogger : SugaredLogger }.

(** What one logging call hands to zap: the level, the message and the
    arguments that follow the message. *)
Record Entry {Response : Type} := mkEntry {
  entry_level : Level;
  entry_msg : string;
  entry_args : list (value Response)
}.
Arguments Entry : clear implicits.
Arguments mkEntry {Response}.

(** What zap's core writes: one record, with the fields zap made of the
    arguments. *)
Record Written {Response : Type} := mkWritten {
  w_level : Level;
  w_msg : string;
  w_fields : list (string * value Response)
}.
Arguments Written : clear implicits.
Arguments mkWritten {Response}.

Inductive DumpResult := DumpOk (dump : string) | DumpFail (dumpErr : GoError).

(** A slice header: backing array, offset of element 0, length, capacity. *)
Record slice := mkSlice { s_arr : nat; s_off : nat; s_len : nat; s_cap : nat }.

(** The code outside the repository.
    - [DumpResponse r w] is [httputil.DumpResponse(r, true)]: it reads the
      body, so its result depends on, and changes, the world;
    - [Build c w] is the error of [c.Build()];
    - [Sprintf] is [fmt.Sprintf], [Sprint] is [fmt.Sprint];
    - [growslice old needed] is the capacity the runtime picks when [append]
      has to move a slice of capacity [old] to hold [needed] elements;
    - [Sampled initial thereafter counted l msg] is the decision of
      zapcore's sampler on an entry of level [l] and message [msg], when
      [counted] are the entries it has decided on before, in order.  It
      admits the first [initial] entries of a level and message in each
      second and every [thereafter]-th after them, so what it decides
      depends on the clock, and on the hash it files messages under, as
      well.  In a run [counted] is never the same twice, so every course
      of decisions is some such function: what holds for every [Sampled]
      holds whatever the clock does. *)
Class Externals (Response World : Type) := {
  DumpResponse : Response -> World -> DumpResult * World;
  Build : Config -> World -> option GoError * World;
  Sprintf : string -> list (value Response) -> string;
  Sprint : list (value Response) -> string;
  growslice : nat -> nat -> nat;
  Sampled : nat -> nat -> list (Level * string) -> Level -> string -> bool
}.

(** ** State and control *)

Inductive panic_value :=
| NilDereference                 (* runtime error: nil pointer dereference *)
| IndexOutOfRange                (* runtime error: index out of range *)
| PanicString (s : string)       (* panic("...") in the source *)
| LogPanic (msg : string).       (* zap's panic after a Panic-level entry *)

Inductive outcome (A : Type) : Type :=
| Returned (a : A)
| Panicked (p : panic_value)
| Exited (code : Z)              (* os.Exit after a Fatal-level entry *)
| StackExhausted.                (* the nesting budget of a recursive call ran out *)
Arguments Returned {A}.
Arguments Panicked {A}.
Arguments Exited {A}.
Arguments StackExhausted {A}.

Record State {Response World : Type} := mkState {
  once_done : bool;                        (* var once sync.Once *)
  logger : option Logger;                  (* var logger *Logger *)
  next_handle : nat;                       (* allocations of Logger so far *)
  output : list (Entry Response);          (* calls that passed the threshold *)
  world : World;
  heap : list (list (value Response));     (* backing arrays of slices *)
  records : list (Written Response);       (* records written by zap's core *)
  sampled : list (Level * string)          (* entries the sampler has counted *)
}.
Arguments State : clear implicits.
Arguments mkState {Response World}.

Section Facade.
Context {Response World : Type} `{!Externals Response World}.

Abbreviation value := (value Response).
Abbreviation Entry := (Entry Response).
Abbreviation State := (State Response World).

(** The package as the Go runtime starts it. *)
Definition initial (w : World) (h : list (list value)) : State :=
  mkState false None 0 [] w h [] [].

Definition M (A : Type) : Type := State -> outcome A * State.

Definition ret {A} (a : A) : M A := fun s => (Returned a, s).

Definition bind {A B} (m : M A) (k : A -> M B) : M B :=
  fun s =>
    match m s with
    | (Returned a, s') => k a s'
    | (Panicked p, s') => (Panicked p, s')
    | (Exited c, s') => (Exited c, s')
    | (StackExhausted, s') => (StackExhausted, s')
    end.

Definition raise {A} (p : panic_value) : M A := fun s => (Panicked p, s).
Definition exit {A} (c : Z) : M A := fun s => (Exited c, s).
Definition stack_exhausted {A} : M A := fun s => (StackExhausted, s).

Definition gets {A} (f : State -> A) : M A := fun s => (Returned (f s), s).
Definition modify (f : State -> State) : M unit := fun s => (Returned tt, f s).

End Facade.

Declare Scope go_scope.
Delimit Scope go_scope with go.
Notation "'let*' x ':=' m 'in' k" := (bind m (fun x => k))
  (at level 10, x name, m at level 100, k at level 200) : go_scope.
Notation "m ';;;' k" := (bind m (fun _ => k))
  (at level 100, k at level 200, right associativity) : go_scope.
Local Open Scope go_scope.

Module Sugared.
Section Zap.
Context {Response World : Type} `{!Externals Response World}.

Abbreviation value := (value Response).
Abbreviation Entry := (Entry Response).
Abbreviation Written := (Written Response).
Abbreviation State := (State Response World).
Abbreviation M := (@M Response World).

(** [getMessage(template, fmtArgs)] of sugar.go: without arguments the
    template is the message as it stands. *)
Definition getMessage (template : string) (fmtArgs : list value) : string :=
  match fmtArgs with
  | [] => template
  | _ =>
      if String.eqb template ""
      then match fmtArgs with
           | [VString s] => s
           | _ => Sprint fmtArgs
           end
      else Sprintf template fmtArgs
  end.

(** The loop of [sweetenFields]: [i] is the position of the head of [args]
    in the whole sequence.  An error standing where a key is due is taken
    alone, the first as the field "error", a later one for a complaint; a
    last element without a partner goes to a complaint; of a pair, a key
    that is a string makes a field, any other key puts position, key and
    value on the list of the invalid.  The results are the fields, the
    complaints made on the way, each with its fields, and the invalid
    pairs.  (A [zap.Field] among the arguments, which zap takes alone, is
    not among the values above.) *)
Fixpoint sweeten (i : nat) (seenError : bool) (args : list value)
    : list (string * value) * list (string * list (string * value)) * list value :=
  match args with
  | [] => ([], [], [])
  | VError e :: rest =>
      let '(fields, complaints, invalid) := sweeten (S i) true rest in
      if seenError
      then (fields, ("Multiple errors without a key.", [("error", VError e)]) :: complaints,
            invalid)
      else (("error", VError e) :: fields, complaints, invalid)
  | [x] => ([], [("Ignored key without a value.", [("ignored", x)])], [])
  | key :: val :: rest =>
      let '(fields, complaints, invalid) := sweeten (S (S i)) seenError rest in
      match key with
      | VString k => ((k, val) :: fields, complaints, invalid)
      | _ => (fields, complaints, VSlice [VInt (Z.of_nat i); key; val] :: invalid)
      end
  end.

(** [sweetenFields(args)]: the fields, and the complaints in the order zap
    logs them, the one about keys that are no strings last. *)
Definition sweetenFields (args : list value)
    : list (string * value) * list (string * list (string * value)) :=
  let '(fields, complaints, invalid) := sweeten 0 false args in
  (fields,
   complaints ++
   match invalid with
   | [] => []
   | _ => [("Ignored key-value pairs with non-string keys.", [("invalid", VSlice invalid)])]
   end).

(** The sampler in front of the core: a configuration without [Sampling]
    has none. *)
Definition sampler_admits (c : Config) (counted : list (Level * string))
    (l : Level) (msg : string) : bool :=
  match Sampling c with
  | None => true
  | Some (initial, thereafter) => Sampled initial thereafter counted l msg
  end.

Definition sampler_counts (c : Config) (counted : list (Level * string))
    (l : Level) (msg : string) : list (Level * string) :=
  match Sampling c with
  | None => counted
  | Some _ => counted ++ [(l, msg)]
  end.

(** [s.base.Error(msg, fields...)], the call zap makes for a complaint: a
    record at error level, if threshold and sampler let it through.  [z] is
    what has been written and what the sampler has counted. *)
Definition base_Error (c : Config) (msg : string) (fields : list (string * value))
    (z : list Written * list (Level * string)) : list Written * list (Level * string) :=
  if Enabled (Level_ c) ErrorLevel
  then ((if sampler_admits c (snd z) ErrorLevel msg
         then fst z ++ [mkWritten ErrorLevel msg fields] else fst z),
        sampler_counts c (snd z) ErrorLevel msg)
  else z.

(** The levels after whose entry zap panics or exits. *)
Definition terminal (c : Config) (l : Level) : bool :=
  match l with
  | PanicLevel | FatalLevel => true
  | DPanicLevel => Development c
  | _ => false
  end.

(** What zap does with a call whose level passes the threshold:
    [s.base.Check(lvl, msg)] asks the sampler; if it admits the entry, or
    the level is terminal (then there is a checked entry all the same),
    [sweetenFields] runs and logs its complaints; last the record is
    written, if the sampler admitted it. *)
Definition core (sl : SugaredLogger) (e : Entry)
    (z : list Written * list (Level * string)) : list Written * list (Level * string) :=
  let c := config sl in
  let admitted := sampler_admits c (snd z) (entry_level e) (entry_msg e) in
  let counted := sampler_counts c (snd z) (entry_level e) (entry_msg e) in
  if admitted || terminal c (entry_level e)
  then
    let '(fields, complaints) := sweetenFields (entry_args e) in
    let z' := fold_left (fun z m => base_Error c (fst m) (snd m) z) complaints (fst z, counted) in
    ((if admitted then fst z' ++ [mkWritten (entry_level e) (entry_msg e) fields] else fst z'),
     snd z')
  else (fst z, counted).

(** The call goes on record and through the core. *)
Definition write (sl : SugaredLogger) (e : Entry) : M unit :=
  modify (fun s =>
    let z := core sl e (records s, sampled s) in
    mkState (once_done s) (logger s) (next_handle s)
            (output s ++ [e]) (world s) (heap s) (fst z) (snd z)).

(** One leveled call on a sugared logger, [log(lvl, template, fmtArgs,
    context)] of sugar.go once the message is made.  A level the threshold
    lets through goes to the core.  A level below the threshold leaves
    nothing behind: under DPanic the call returns at once; from DPanic on
    the checks run but the core is not enabled, and neither is it for the
    complaints, which are at error level.  After that zap panics on Panic,
    exits on Fatal, and panics on DPanic when the logger is in development
    mode, whether or not a record was written. *)
Definition log (sl : SugaredLogger) (l : Level) (msg : string) (args : list value) : M unit :=
  (if Enabled (Level_ (config sl)) l then write sl (mkEntry l msg args) else ret tt) ;;;
  match l with
  | PanicLevel => raise (LogPanic msg)
  | FatalLevel => exit 1
  | DPanicLevel => if Development (config sl) then raise (LogPanic msg) else ret tt
  | _ => ret tt
  end.

(** The structured forms: the arguments after the message are the
    alternating keys and values. *)
Definition Debugw sl msg (kv : list value) := log sl DebugLevel msg kv.
Definition Infow sl msg (kv : list value) := log sl InfoLevel msg kv.
Definition Warnw sl msg (kv : list value) := log sl WarnLevel msg kv.
Definition Errorw sl msg (kv : list value) := log sl ErrorLevel msg kv.
Definition Panicw sl msg (kv : list value) := log sl PanicLevel msg kv.
Definition Fatalw sl msg (kv : list value) := log sl FatalLevel msg kv.

(** The printf forms: the message is made of template and arguments, and
    there are no fields. *)
Definition Debugf sl template (args : list value) := log sl DebugLevel (getMessage template args) [].
Definition Infof sl template (args : list value) := log sl InfoLevel (getMessage template args) [].
Definition Warnf sl template (args : list value) := log sl WarnLevel (getMessage template args) [].
Definition Errorf sl template (args : list value) := log sl ErrorLevel (getMessage template args) [].
Definition DPanicf sl template (args : list value) := log sl DPanicLevel (getMessage template args) [].
Definition Panicf sl template (args : list value) := log sl PanicLevel (getMessage template args) [].
Definition Fatalf sl template (args : list value) := log sl FatalLevel (getMessage template args) [].

End Zap.
End Sugared.

(** ** The shared facade: [NewLogger], [InitLogger], [GetLogger] and the
    forwarding functions, identical in the four source texts *)

Section Package.
Context {Response World : Type} `{!Externals Response World}.

Abbreviation value := (value Response).
Abbreviation State := (State Response World).
Abbreviation M := (@M Response World).

Definition set_once_done (b : bool) (s : State) : State :=
  mkState b (logger s) (next_handle s) (output s) (world s) (heap s)
          (records s) (sampled s).
Definition set_logger (p : option Logger) (s : State) : State :=
  mkState (once_done s) p (next_handle s) (output s) (world s) (heap s)
          (records s) (sampled s).
Definition set_world (w : World) (s : State) : State :=
  mkState (once_done s) (logger s) (next_handle s) (output s) w (heap s)
          (records s) (sampled s).
Definition set_heap (h : list (list value)) (s : State) : State :=
  mkState (once_done s) (logger s) (next_handle s) (output s) (world s) h
          (records s) (sampled s).

(** [config.Build()], as far as its error goes. *)
Definition build (c : Config) : M (option GoError) :=
  fun s => let (r, w) := Build c (world s) in (Returned r, set_world w s).

(** [&Logger{sugaredLogger: ...}]: a fresh allocation. *)
Definition new_Logger (sl : SugaredLogger) : M Logger :=
  fun s => (Returned (mkLogger (next_handle s) sl),
            mkState (once_done s) (logger s) (S (next_handle s)) (output s) (world s) (heap s)
                    (records s) (sampled s)).

Definition NewLogger (isDevelopment : bool) : M (option Logger * option GoError) :=
  let config :=
    if isDevelopment
    then with_Encoding NewDevelopmentConfig "console"
    else with_Encoding NewProductionConfig "json" in
  let* err := build config in
  match err with
  | Some e => ret (None, Some e)
  | None => let* l := new_Logger (mkSugared config) in ret (Some l, None)
  end.

(** [once.Do(f)]: nothing after the first call; the guard is set when [f]
    is left, by return or by panic. *)
Definition once_Do (f : M unit) : M unit :=
  fun s =>
    if once_done s then (Returned tt, s)
    else let (r, s') := f s in (r, set_once_done true s').

Definition InitLogger (isDevelopment : bool) : M unit :=
  once_Do (
    let* r := NewLogger isDevelopment in
    modify (set_logger (fst r)) ;;;
    match snd r with
    | Some _ => raise (PanicString "failed to initialize logger")
    | None => ret tt
    end).

Definition GetLogger : M (option Logger) := gets logger.

(** The field selection [p.sugaredLogger] on a [*Logger]. *)
Definition sugared (p : option Logger) : M SugaredLogger :=
  match p with
  | Some l => ret (sugaredLogger l)
  | None => raise NilDereference
  end.

Definition Info (msg : string) (keysAndValues : list value) : M unit :=
  let* p := GetLogger in let* sl := sugared p in Sugared.Infow sl msg keysAndValues.
Definition Debug (msg : string) (keysAndValues : list value) : M unit :=
  let* p := GetLogger in let* sl := sugared p in Sugared.Debugw sl msg keysAndValues.
Definition Warn (msg : string) (keysAndValues : list value) : M unit :=
  let* p := GetLogger in let* sl := sugared p in Sugared.Warnw sl msg keysAndValues.
Definition Error (msg : string) (keysAndValues : list value) : M unit :=
  let* p := GetLogger in let* sl := sugared p in Sugared.Errorw sl msg keysAndValues.
Definition Fatal (msg : string) (keysAndValues : list value) : M unit :=
  let* p := GetLogger in let* sl := sugared p in Sugared.Fatalw sl msg keysAndValues.
Definition Panic (msg : string) (keysAndValues : list value) : M unit :=
  let* p := GetLogger in let* sl := sugared p in Sugared.Panicw sl msg keysAndValues.
Definition Debugf (template : string) (args : list value) : M unit :=
  let* p := GetLogger in let* sl := sugared p in Sugared.Debugf sl template args.
Definition Infof (template : string) (args : list value) : M unit :=
  let* p := GetLogger in let* sl := sugared p in Sugared.Infof sl template args.
Definition Warnf (template : string) (args : list value) : M unit :=
  let* p := GetLogger in let* sl := sugared p in Sugared.Warnf sl template args.
Definition Errorf (template : string) (args : list value) : M unit :=
  let* p := GetLogger in let* sl := sugared p in Sugared.Errorf sl template args.
Definition Fatalf (template : string) (args : list value) : M unit :=
  let* p := GetLogger in let* sl := sugared p in Sugared.Fatalf sl template args.
Definition Panicf (template : string) (args : list value) : M unit :=
  let* p := GetLogger in let* sl := sugared p in Sugared.Panicf sl template args.

End Package.

(** ** Slices in the store *)

Section Slices.
Context {Response World : Type} `{!Externals Response World}.

Abbreviation value := (value Response).
Abbreviation State := (State Response World).
Abbreviation M := (@M Response World).

(** The elements a slice shows: [len] cells of its array from [off] on. *)
Definition read_slice (h : list (list value)) (s : slice) : list value :=
  take (s_len s) (drop (s_off s) (default [] (h !! s_arr s))).

(** [s[i]] as an expression: a run-time panic outside [0 <= i < len(s)]. *)
Definition index (s : slice) (i : nat) : M value :=
  fun st =>
    match read_slice (heap st) s !! i with
    | Some v => (Returned v, st)
    | None => (Panicked IndexOutOfRange, st)
    end.

(** [s[i] = v]: the cell of the backing array is overwritten. *)
Definition set_index (s : slice) (i : nat) (v : value) : M unit :=
  fun st =>
    if (i <? s_len s)%nat
    then (Returned tt, set_heap (alter (<[s_off s + i := v]>) (s_arr s) (heap st)) st)
    else (Panicked IndexOutOfRange, st).

(** [append(s, v)]: within capacity the next cell of the same array is
    written and the header grows; otherwise the elements move to a fresh
    array and the old one is left as it was. *)
Definition append1 (s : slice) (v : value) : M slice :=
  fun st =>
    if (s_len s <? s_cap s)%nat
    then (Returned (mkSlice (s_arr s) (s_off s) (S (s_len s)) (s_cap s)),
          set_heap (alter (<[s_off s + s_len s := v]>) (s_arr s) (heap st)) st)
    else
      let c := max (S (s_len s)) (growslice (s_cap s) (S (s_len s))) in
      let a := read_slice (heap st) s ++ [v] ++ replicate (c - S (s_len s)) VNil in
      (Returned (mkSlice (length (heap st)) 0 (S (s_len s)) c),
       set_heap (heap st ++ [a]) st).

(** [s...] read out in one go, for handing to a variadic callee. *)
Definition spread (s : slice) : M (list value) :=
  gets (fun st => read_slice (heap st) s).

(** The slice a call [f(a, b, c)] of a variadic [f] receives: nil for no
    arguments, else a fresh array holding exactly the arguments. *)
Definition variadic (args : list value) : M slice :=
  fun st =>
    match args with
    | [] => (Returned (mkSlice 0 0 0 0), st)
    | _ => (Returned (mkSlice (length (heap st)) 0 (length args) (length args)),
            set_heap (heap st ++ [args]) st)
    end.

(** [httputil.DumpResponse(resp, true)] run against the world. *)
Definition dumpResponse (resp : Response) : M DumpResult :=
  fun st => let (d, w) := DumpResponse resp (world st) in (Returned d, set_world w st).

(** A [for] loop over the values its counter takes, carrying what the body
    builds up. *)
Fixpoint for_each {A} (positions : list nat) (body : nat -> A -> M A) (acc : A) : M A :=
  match positions with
  | [] => ret acc
  | i :: rest => let* acc' := body i acc in for_each rest body acc'
  end.

(** The values [i] takes in [for i := 0; i < n; i += 2]. *)
Definition key_positions (n : nat) : list nat :=
  (fun j => 2 * j) <$> seq 0 ((n + 1) / 2).

(** The values [i] takes in [for i := 1; i < n; i += 2]. *)
Definition value_positions (n : nat) : list nat :=
  (fun j => 2 * j + 1) <$> seq 0 (n / 2).

End Slices.

(** ** [CheckErr] of src/golog/golog.go *)

Module Golog.
Section Golog.
Context {Response World : Type} `{!Externals Response World}.
Abbreviation M := (@M Response World).

Definition CheckErr (err : option GoError) (message : string) (panic : bool) : M bool :=
  match err with
  | Some e =>
      (if panic
       then let* p := GetLogger in let* sl := sugared p in
            Sugared.DPanicf sl "%s: %v" [VString message; VError e]
       else ret tt) ;;;
      let* p := GetLogger in let* sl := sugared p in
      Sugared.Errorf sl "%s: %v" [VString message; VError e] ;;;
      ret true
  | None => ret false
  end.

End Golog.
End Golog.

(** ** [CheckErr] of src/log/log.go *)

Module Log.
Section Log.
Context {Response World : Type} `{!Externals Response World}.
Abbreviation value := (value Response).
Abbreviation M := (@M Response World).

(** One turn of the loop body from the type test on: [rec] is [CheckErr]
    itself, called on the outcome of the dump with the response as context. *)
Definition pair_step (rec : option GoError -> bool -> string -> list value -> M bool)
    (key val : value) (newKeysAndValues : list value) : M (list value) :=
  match val with
  | VResponse resp =>
      let* d := dumpResponse resp in
      let err := match d with DumpFail e => Some e | DumpOk _ => None end in
      let* failed := rec err false "can't dump HTTP response" [VString "response"; VResponse resp] in
      if failed
      then ret (newKeysAndValues ++
                [key; VString (Sprintf "Error dumping response: %v"
                                 [match err with Some e => VError e | None => VNil end])])
      else ret (newKeysAndValues ++
                [key; VString (match d with DumpOk dump => dump | DumpFail _ => "" end)])
  | _ => ret (newKeysAndValues ++ [key; val])
  end.

(** [for i := 0; i < len(keysAndValues); i += 2], on what is left of the
    slice from [i] on; a last element without a partner gets the default. *)
Fixpoint pairs (rec : option GoError -> bool -> string -> list value -> M bool)
    (keysAndValues : list value) (newKeysAndValues : list value) : M (list value) :=
  match keysAndValues with
  | [] => ret newKeysAndValues
  | key :: rest =>
      match rest with
      | [] => pair_step rec key (VString "<missing value>") newKeysAndValues
      | val :: rest' =>
          let* acc := pair_step rec key val newKeysAndValues in
          pairs rec rest' acc
      end
  end.

(** The slice is only read, so it is taken by its elements; [fuel] bounds
    the nesting of [CheckErr] inside itself. *)
Fixpoint CheckErr (fuel : nat) (err : option GoError) (panic : bool) (message : string)
    (keysAndValues : list value) : M bool :=
  match err with
  | Some e =>
      match fuel with
      | O => stack_exhausted
      | S fuel' =>
          let* newKeysAndValues := pairs (CheckErr fuel') keysAndValues [] in
          let newKeysAndValues := [VString "error"; VError e] ++ newKeysAndValues in
          (if panic
           then let* p := GetLogger in let* sl := sugared p in
                Sugared.Panicw sl message [VSlice newKeysAndValues]
           else ret tt) ;;;
          let* p := GetLogger in let* sl := sugared p in
          Sugared.Errorw sl message [VSlice newKeysAndValues] ;;;
          ret true
      end
  | None => ret false
  end.

End Log.
End Log.

(** ** [CheckErr] of the package-log text in src/golog/golog_test.go *)

Module LogPairs.
Section LogPairs.
Context {Response World : Type} `{!Externals Response World}.
Abbreviation value := (value Response).
Abbreviation M := (@M Response World).

Definition pair_step (keysAndValues : slice) (i : nat) (newKeysAndValues : list value)
    : M (list value) :=
  let* key := index keysAndValues i in
  let* val := index keysAndValues (i + 1) in
  match val with
  | VResponse resp =>
      let* d := dumpResponse resp in
      match d with
      | DumpFail dumpErr =>
          let* p := GetLogger in let* sl := sugared p in
          Sugared.Warnw sl "Failed to dump HTTP response" [VString "error"; VError dumpErr] ;;;
          ret (newKeysAndValues ++
               [key; VString (Sprintf "Error dumping response: %v" [VError dumpErr])])
      | DumpOk dump => ret (newKeysAndValues ++ [key; VString dump])
      end
  | _ => ret (newKeysAndValues ++ [key; val])
  end.

Definition CheckErr (err : option GoError) (shouldPanic : bool) (message : string)
    (keysAndValues : slice) : M bool :=
  match err with
  | None => ret false
  | Some e =>
      let* keysAndValues :=
        if Nat.eqb (s_len keysAndValues mod 2) 0
        then ret keysAndValues
        else append1 keysAndValues (VString "<missing value>") in
      let newKeysAndValues := [VString "error"; VError e] in
      let* newKeysAndValues :=
        for_each (key_positions (s_len keysAndValues)) (pair_step keysAndValues)
                 newKeysAndValues in
      let* p := GetLogger in let* logger := sugared p in
      (if shouldPanic
       then Sugared.Panicw logger message newKeysAndValues
       else Sugared.Errorw logger message newKeysAndValues) ;;;
      ret true
  end.

End LogPairs.
End LogPairs.

(** ** [CheckErr] of src/unnamed/part_000 *)

Module LogInPlace.
Section LogInPlace.
Context {Response World : Type} `{!Externals Response World}.
Abbreviation value := (value Response).
Abbreviation M := (@M Response World).

Definition dump_step (keysAndValues : slice) (i : nat) (_ : unit) : M unit :=
  let* val := index keysAndValues i in
  match val with
  | VResponse resp =>
      let* d := dumpResponse resp in
      match d with
      | DumpOk dump => set_index keysAndValues i (VString dump)
      | DumpFail dumpErr =>
          let* p := GetLogger in let* sl := sugared p in
          Sugared.Warnw sl "Failed to dump HTTP response" [VString "error"; VError dumpErr]
      end
  | _ => ret tt
  end.

Definition CheckErr (err : option GoError) (shouldPanic : bool) (message : string)
    (keysAndValues : slice) : M bool :=
  match err with
  | None => ret false
  | Some e =>
      let* keysAndValues :=
        if Nat.eqb (s_len keysAndValues mod 2) 0
        then ret keysAndValues
        else append1 keysAndValues (VString "<missing value>") in
      let finalKeysAndValues := [VString "error"; VError e] in
      for_each (value_positions (s_len keysAndValues)) (dump_step keysAndValues) tt ;;;
      let* rest := spread keysAndValues in
      let finalKeysAndValues := finalKeysAndValues ++ rest in
      let* p := GetLogger in let* logger := sugared p in
      (if shouldPanic
       then Sugared.Panicw logger message finalKeysAndValues
       else Sugared.Errorw logger message finalKeysAndValues) ;;;
      ret true
  end.

End LogInPlace.
End LogInPlace.

(** ** Concrete externals, for running the definitions *)

Module Sample.

(** Three responses: one whose body reads fine, one whose body is closed
    (every dump fails), one whose first read fails and later ones succeed. *)
Inductive resp := Healthy | Closed | Flaky.

Definition dump (r : resp) (attempts : nat) : DumpResult * nat :=
  (match r with
   | Healthy => DumpOk "HTTP/1.1 500 Internal Server Error"
   | Closed => DumpFail (mkError "http: read on closed response body")
   | Flaky => match attempts with
              | O => DumpFail (mkError "unexpected EOF")
              | S _ => DumpOk "HTTP/1.1 200 OK"
              end
   end, S attempts).

(** Enough of [fmt] for the templates of the source: [%v] and [%s] of a
    string or an error. *)
Definition show (v : value resp) : string :=
  match v with
  | VString s => s
  | VError e => ErrorText e
  | _ => "?"
  end.

Fixpoint format (template : string) (args : list (value resp)) : string :=
  match template with
  | EmptyString => EmptyString
  | String c rest =>
      if Ascii.eqb c "%"%char
      then match rest with
           | String verb rest' =>
               if (Ascii.eqb verb "v"%char || Ascii.eqb verb "s"%char)%bool
               then match args with
                    | a :: args' => String.append (show a) (format rest' args')
                    | [] => String.append "%!(MISSING)" (format rest' [])
                    end
               else String c (String verb (format rest' args))
           | EmptyString => "%!(NOVERB)"
           end
      else String c (format rest args)
  end.

(** [fmt.Sprint] of strings and errors: the operands one after the other. *)
Definition sprint (args : list (value resp)) : string :=
  foldr (fun a acc => String.append (show a) acc) EmptyString args.

(** The sampler within one second and without two messages under one hash:
    the [n]-th entry of a level and message is admitted when [n] is at most
    [initial], and after that when [n - initial] is a multiple of
    [thereafter]. *)
Definition sampler (initial thereafter : nat) (counted : list (Level * string))
    (l : Level) (msg : string) : bool :=
  let n := S (length (List.filter (fun k => level_eqb (fst k) l && String.eqb (snd k) msg)
                                  counted)) in
  (n <=? initial)%nat ||
  (negb (thereafter =? 0)%nat && ((n - initial) mod thereafter =? 0)%nat).

#[global] Instance externals : Externals resp nat := {|
  DumpResponse := dump;
  Build := fun _ w => (None, w);
  Sprintf := format;
  Sprint := sprint;
  growslice := fun old needed => 2 * old;
  Sampled := sampler
|}.

Definition e1 : GoError := mkError "connection refused".

Definition dev : Logger := mkLogger 0 (mkSugared (with_Encoding NewDevelopmentConfig "console")).

Definition prod : Logger := mkLogger 0 (mkSugared (with_Encoding NewProductionConfig "json")).

Definition ready (h : list (list (value resp))) : State resp nat :=
  mkState true (Some dev) 1 [] 0 h [] [].

(** The same with the production logger in place. *)
Definition ready_prod (h : list (list (value resp))) : State resp nat :=
  mkState true (Some prod) 1 [] 0 h [] [].

(** Externals whose [Build] always fails. *)
Definition broken_build : Externals resp nat := {|
  DumpResponse := dump;
  Build := fun _ w => (Some (mkError "couldn't open sink"), w);
  Sprintf := format;
  Sprint := sprint;
  growslice := fun old needed => 2 * old;
  Sampled := sampler
|}.

End Sample.


(** ** Vocabulary of the statements *)

Section Vocabulary.
Context {Response World : Type} `{!Externals Response World}.
Abbreviation value := (value Response).
Abbreviation Entry := (Entry Response).
Abbreviation Written := (Written Response).
Abbreviation State := (State Response World).
Abbreviation M := (@M Response World).

(** What zap's core has written and counted after a run of calls. *)
Definition core_all (sl : SugaredLogger) (es : list Entry)
    (z : list Written * list (Level * string)) : list Written * list (Level * string) :=
  fold_left (fun z e => Sugared.core sl e z) es z.

(** [st] after the calls [es] went through the logger in place, the world
    became [w] and the store [h]; the package variables are as in [st]. *)
Definition upd (st : State) (es : list Entry) (w : World) (h : list (list value)) : State :=
  let z := match logger st with
           | Some lg => core_all (sugaredLogger lg) es (records st, sampled st)
           | None => (records st, sampled st)
           end in
  mkState (once_done st) (logger st) (next_handle st) (output st ++ es) w h (fst z) (snd z).

(** The entries of [es] that the threshold of [sl] lets through. *)
Definition written (sl : SugaredLogger) (es : list Entry) : list Entry :=
  List.filter (fun e => Enabled (Level_ (config sl)) (entry_level e)) es.

Definition records_at (l : Level) (es : list Entry) : list Entry :=
  List.filter (fun e => level_eqb (entry_level e) l) es.

(** What a call added to the output. *)
Definition emitted (before after : State) : list Entry :=
  drop (length (output before)) (output after).

(** The records zap's core wrote during a call. *)
Definition appended (before after : State) : list Written :=
  drop (length (records before)) (records after).


(** The record zap makes of a call. *)
Definition written_of (e : Entry) : Written :=
  mkWritten (entry_level e) (entry_msg e) (fst (Sugared.sweetenFields (entry_args e))).

(** A call zap has no complaint about. *)
Definition well_formed (e : Entry) : Prop :=
  snd (Sugared.sweetenFields (entry_args e)) = [].

(** What the sampler has counted after the calls [es] came by. *)
Definition counted_after (c : Config) (counted : list (Level * string)) (es : list Entry)
    : list (Level * string) :=
  fold_left (fun h e => Sugared.sampler_counts c h (entry_level e) (entry_msg e)) es counted.

(** The records of the calls [es], in order, less those the sampler drops. *)
Fixpoint sampled_through (c : Config) (counted : list (Level * string)) (es : list Entry)
    : list Written :=
  match es with
  | [] => []
  | e :: es' =>
      (if Sugared.sampler_admits c counted (entry_level e) (entry_msg e)
       then [written_of e] else []) ++
      sampled_through c (Sugared.sampler_counts c counted (entry_level e) (entry_msg e)) es'
  end.

(** Every key of the sequence is a string. *)
Fixpoint string_keys (kv : list value) : bool :=
  match kv with
  | [] => true
  | VString _ :: rest => match rest with [] => true | _ :: rest' => string_keys rest' end
  | _ => false
  end.

(** The fields of alternating string keys and values. *)
Fixpoint pair_up (kv : list value) : list (string * value) :=
  match kv with
  | VString k :: val :: rest => (k, val) :: pair_up rest
  | _ => []
  end.

Definition placeholder : value := VString "<missing value>".

(** A context sequence made even. *)
Definition pad (kv : list value) : list value :=
  if Nat.even (length kv) then kv else kv ++ [placeholder].

(** The context sequence taken pair by pair: a response in value position
    is dumped against the world; a successful dump replaces it, a failed
    one is recorded and replaced by [on_fail].  Keys, other values and a
    last key without a value stay as they are. *)
Fixpoint dump_pairs (on_fail : Response -> GoError -> value) (kv : list value) (w : World)
    : list value * list GoError * World :=
  match kv with
  | key :: val :: rest =>
      match val with
      | VResponse r =>
          match DumpResponse r w with
          | (DumpOk dump, w') =>
              let '(l, errs, w'') := dump_pairs on_fail rest w' in
              (key :: VString dump :: l, errs, w'')
          | (DumpFail e, w') =>
              let '(l, errs, w'') := dump_pairs on_fail rest w' in
              (key :: on_fail r e :: l, e :: errs, w'')
          end
      | _ =>
          let '(l, errs, w'') := dump_pairs on_fail rest w in
          (key :: val :: l, errs, w'')
      end
  | _ => (kv, [], w)
  end.

(** [LogInPlace] leaves a response whose dump failed where it was. *)
Definition keep_response (r : Response) (e : GoError) : value := VResponse r.

(** [LogPairs] and [Log] put a description of the failure in its place. *)
Definition failure_text (r : Response) (e : GoError) : value :=
  VString (Sprintf "Error dumping response: %v" [VError e]).

Definition warn_entry (e : GoError) : Entry :=
  mkEntry WarnLevel "Failed to dump HTTP response" [VString "error"; VError e].







(** A slice header that fits the store. *)
Definition valid_slice (h : list (list value)) (s : slice) : Prop :=
  s_len s <= s_cap s /\ s_off s + s_cap s <= length (default [] (h !! s_arr s)).

(** The level and the configuration [NewLogger] gives for a flag. *)
Definition config_of (isDevelopment : bool) : Config :=
  if isDevelopment
  then mkConfig DebugLevel true "console" None
  else mkConfig InfoLevel false "json" (Some (100, 100)).

(** A computation that leaves the guard and the logger variable alone. *)
Definition keeps_package {A} (m : M A) : Prop :=
  forall st, once_done (snd (m st)) = once_done st /\ logger (snd (m st)) = logger st.

(** The calls a client of the packages can make, as computations. *)
Inductive api : M unit -> Prop :=
| api_InitLogger d : api (InitLogger d)
| api_Info msg kv : api (Info msg kv)
| api_Debug msg kv : api (Debug msg kv)
| api_Warn msg kv : api (Warn msg kv)
| api_Error msg kv : api (Error msg kv)
| api_Fatal msg kv : api (Fatal msg kv)
| api_Panic msg kv : api (Panic msg kv)
| api_Debugf t args : api (Debugf t args)
| api_Infof t args : api (Infof t args)
| api_Warnf t args : api (Warnf t args)
| api_Errorf t args : api (Errorf t args)
| api_Fatalf t args : api (Fatalf t args)
| api_Panicf t args : api (Panicf t args)
| api_GetLogger : api (GetLogger ;;; ret tt)
| api_NewLogger d : api (NewLogger d ;;; ret tt)
| api_CheckErr_golog err msg p : api (Golog.CheckErr err msg p ;;; ret tt)
| api_CheckErr_log fuel err p msg kv : api (Log.CheckErr fuel err p msg kv ;;; ret tt)
| api_CheckErr_pairs err p msg s : api (LogPairs.CheckErr err p msg s ;;; ret tt)
| api_CheckErr_inplace err p msg s : api (LogInPlace.CheckErr err p msg s ;;; ret tt).

(** The states a program can bring a package to: it starts with the guard
    unset and no logger, the client changes store and world as it likes,
    and the package variables change through the calls only. *)
Inductive reachable : State -> Prop :=
| reach_initial w h : reachable (initial w h)
| reach_client st w h : reachable st -> reachable (set_heap h (set_world w st))
| reach_call st m : reachable st -> api m -> reachable (snd (m st)).

(** A response no dump of which ever succeeds. *)
Definition always_fails (r : Response) : Prop :=
  forall w, exists dumpErr w', DumpResponse r w = (DumpFail dumpErr, w').

(** A context none of whose values is a response. *)
Definition no_response_values (kv : list value) : Prop :=
  forall i r, Nat.even i = false -> kv !! i <> Some (VResponse r).

(** [st'] comes after [st] in a run of the program. *)
Inductive reaches (st : State) : State -> Prop :=
| reaches_refl : reaches st st
| reaches_client st' w h : reaches st st' -> reaches st (set_heap h (set_world w st'))
| reaches_call st' m : reaches st st' -> api m -> reaches st (snd (m st')).

End Vocabulary.

(** * Properties *)

(** ** The monad, the state and the leveled calls *)

(** The side conditions of a leveled call: the logger in place, the level. *)
Ltac log_side := first [ eassumption | (simpl; lia) | (simpl; eassumption) ].

Section Basics.
Context {Response World : Type} `{!Externals Response World}.
Abbreviation value := (value Response).
Abbreviation Entry := (Entry Response).
Abbreviation State := (State Response World).
Abbreviation M := (@M Response World).

Lemma bind_ret_l {A B} (a : A) (k : A -> M B) (st : State) :
  bind (ret a) k st = k a st.
Proof. reflexivity. Qed.

Lemma bind_returned {A B} (m : M A) (k : A -> M B) (st st' : State) (a : A) :
  m st = (Returned a, st') -> bind m k st = k a st'.
Proof. intros E. unfold bind. now rewrite E. Qed.

Lemma bind_panicked {A B} (m : M A) (k : A -> M B) (st st' : State) p :
  m st = (Panicked p, st') -> bind m k st = (Panicked p, st').
Proof. intros E. unfold bind. now rewrite E. Qed.

Lemma core_all_app sl (es es' : list Entry) z :
  core_all sl (es ++ es') z = core_all sl es' (core_all sl es z).
Proof. unfold core_all. apply fold_left_app. Qed.

Lemma upd_id (st : State) : upd st [] (world st) (heap st) = st.
Proof. destruct st as [o [lg|] n out w h rs sm]; unfold upd; simpl; now rewrite app_nil_r. Qed.

Lemma upd_upd (st : State) es es' w w' h h' :
  upd (upd st es w h) es' w' h' = upd st (es ++ es') w' h'.
Proof.
  unfold upd. cbn [once_done logger next_handle output world heap records sampled].
  rewrite app_assoc. destruct (logger st) as [lg|]; [|reflexivity].
  now rewrite core_all_app, <- surjective_pairing.
Qed.

Lemma emitted_upd (st : State) es w h : emitted st (upd st es w h) = es.
Proof. unfold emitted, upd. simpl. apply drop_app_length. Qed.

Lemma written_app sl (es es' : list Entry) :
  written sl (es ++ es') = written sl es ++ written sl es'.
Proof. unfold written. apply List.filter_app. Qed.


Lemma Enabled_mono t l l' :
  Enabled t l = true -> (level_num l <= level_num l')%Z -> Enabled t l' = true.
Proof. unfold Enabled. intros E Hle. apply Z.leb_le. apply Z.leb_le in E. lia. Qed.

(** The state a leveled call of the logger in place leaves. *)
Lemma log_state lg l msg (args : list value) (st : State) :
  logger st = Some lg ->
  snd ((if Enabled (Level_ (config (sugaredLogger lg))) l
        then Sugared.write (sugaredLogger lg) (mkEntry l msg args) else ret tt) st)
  = upd st (written (sugaredLogger lg) [mkEntry l msg args]) (world st) (heap st).
Proof.
  intros Hlg. unfold written. cbn [List.filter entry_level].
  destruct (Enabled (Level_ (config (sugaredLogger lg))) l).
  - unfold Sugared.write, modify, upd. cbn [snd]. now rewrite Hlg.
  - cbn [snd ret]. symmetry. apply upd_id.
Qed.

Lemma log_run lg l msg (args : list value) (st : State) :
  logger st = Some lg ->
  (if Enabled (Level_ (config (sugaredLogger lg))) l
   then Sugared.write (sugaredLogger lg) (mkEntry l msg args) else ret tt) st
  = (Returned tt,
     upd st (written (sugaredLogger lg) [mkEntry l msg args]) (world st) (heap st)).
Proof.
  intros Hlg. rewrite <- (log_state lg l msg args st Hlg).
  now destruct (Enabled (Level_ (config (sugaredLogger lg))) l).
Qed.

(** A leveled call below DPanic goes through threshold and core and returns. *)
Lemma log_plain lg l msg (args : list value) (st : State) :
  logger st = Some lg ->
  (level_num l <= 2)%Z ->
  Sugared.log (sugaredLogger lg) l msg args st
  = (Returned tt,
     upd st (written (sugaredLogger lg) [mkEntry l msg args]) (world st) (heap st)).
Proof.
  intros Hlg Hl. unfold Sugared.log, bind. rewrite (log_run lg l msg args st Hlg).
  destruct l; simpl in Hl; try lia; reflexivity.
Qed.

(** A Panic-level call goes through threshold and core and panics. *)
Lemma log_panic lg msg (args : list value) (st : State) :
  logger st = Some lg ->
  Sugared.log (sugaredLogger lg) PanicLevel msg args st
  = (Panicked (LogPanic msg),
     upd st (written (sugaredLogger lg) [mkEntry PanicLevel msg args]) (world st) (heap st)).
Proof.
  intros Hlg. unfold Sugared.log, bind. now rewrite (log_run lg PanicLevel msg args st Hlg).
Qed.

(** A Fatal-level call goes through threshold and core and exits. *)
Lemma log_fatal lg msg (args : list value) (st : State) :
  logger st = Some lg ->
  Sugared.log (sugaredLogger lg) FatalLevel msg args st
  = (Exited 1,
     upd st (written (sugaredLogger lg) [mkEntry FatalLevel msg args]) (world st) (heap st)).
Proof.
  intros Hlg. unfold Sugared.log, bind. now rewrite (log_run lg FatalLevel msg args st Hlg).
Qed.

(** A DPanic-level call panics in development mode only. *)
Lemma log_dpanic lg msg (args : list value) (st : State) :
  logger st = Some lg ->
  Sugared.log (sugaredLogger lg) DPanicLevel msg args st
  = (if Development (config (sugaredLogger lg)) then Panicked (LogPanic msg) else Returned tt,
     upd st (written (sugaredLogger lg) [mkEntry DPanicLevel msg args]) (world st) (heap st)).
Proof.
  intros Hlg. unfold Sugared.log, bind. rewrite (log_run lg DPanicLevel msg args st Hlg).
  now destruct (Development (config (sugaredLogger lg))).
Qed.

(** The same under a continuation, for rewriting inside a run. *)
Lemma bind_log_plain {B} lg l msg (args : list value) (k : unit -> M B) (st : State) :
  logger st = Some lg ->
  (level_num l <= 2)%Z ->
  bind (Sugared.log (sugaredLogger lg) l msg args) k st
  = k tt (upd st (written (sugaredLogger lg) [mkEntry l msg args]) (world st) (heap st)).
Proof. intros Hlg Hl. unfold bind at 1. now rewrite (log_plain lg l msg args st Hlg Hl). Qed.

Lemma bind_log_panic {B} lg msg (args : list value) (k : unit -> M B) (st : State) :
  logger st = Some lg ->
  bind (Sugared.log (sugaredLogger lg) PanicLevel msg args) k st
  = (Panicked (LogPanic msg),
     upd st (written (sugaredLogger lg) [mkEntry PanicLevel msg args]) (world st) (heap st)).
Proof. intros Hlg. unfold bind at 1. now rewrite (log_panic lg msg args st Hlg). Qed.

(** With a logger in place, [GetLogger().sugaredLogger] is that logger's. *)
Lemma get_sugared {A} (k : SugaredLogger -> M A) (st : State) lg :
  logger st = Some lg ->
  (let* p := GetLogger in let* sl := sugared p in k sl) st = k (sugaredLogger lg) st.
Proof. intros E. unfold bind, GetLogger, gets. rewrite E. reflexivity. Qed.

(** Without one, it is a nil dereference, and nothing has happened. *)
Lemma get_sugared_nil {A} (k : SugaredLogger -> M A) (st : State) :
  logger st = None ->
  (let* p := GetLogger in let* sl := sugared p in k sl) st = (Panicked NilDereference, st).
Proof. intros E. unfold bind, GetLogger, gets. rewrite E. reflexivity. Qed.

End Basics.

(** ** Construction and one-time initialisation *)

Section Construction.
Context {Response World : Type} `{!Externals Response World}.
Abbreviation value := (value Response).
Abbreviation Entry := (Entry Response).
Abbreviation State := (State Response World).
Abbreviation M := (@M Response World).

Lemma NewLogger_eq d (st : State) :
  NewLogger d st =
  match Build (config_of d) (world st) with
  | (Some e, w) => (Returned (None, Some e), set_world w st)
  | (None, w) =>
      (Returned (Some (mkLogger (next_handle st) (mkSugared (config_of d))), None),
       mkState (once_done st) (logger st) (S (next_handle st)) (output st) w (heap st)
               (records st) (sampled st))
  end.
Proof.
  unfold NewLogger, bind, build.
  destruct d; cbn; unfold with_Encoding; cbn;
    match goal with |- context [Build ?c ?w] => destruct (Build c w) as [[e|] w'] end;
    reflexivity.
Qed.

Lemma NewLogger_config d (st st' : State) lg :
  NewLogger d st = (Returned (Some lg, None), st') ->
  config (sugaredLogger lg) = config_of d.
Proof.
  rewrite NewLogger_eq. destruct (Build (config_of d) (world st)) as [[e|] w]; intros E.
  - discriminate.
  - injection E as <- _. reflexivity.
Qed.

Lemma InitLogger_done d' (st : State) :
  once_done st = true -> InitLogger d' st = (Returned tt, st).
Proof. intros E. unfold InitLogger, once_Do. now rewrite E. Qed.

Lemma InitLogger_first d (st : State) :
  once_done st = false ->
  InitLogger d st =
  match Build (config_of d) (world st) with
  | (Some e, w) =>
      (Panicked (PanicString "failed to initialize logger"),
       mkState true None (next_handle st) (output st) w (heap st)
               (records st) (sampled st))
  | (None, w) =>
      (Returned tt,
       mkState true (Some (mkLogger (next_handle st) (mkSugared (config_of d))))
               (S (next_handle st)) (output st) w (heap st)
               (records st) (sampled st))
  end.
Proof.
  intros E. unfold InitLogger, once_Do. rewrite E.
  unfold bind at 1. rewrite NewLogger_eq.
  destruct (Build (config_of d) (world st)) as [[e|] w]; reflexivity.
Qed.

End Construction.

(** ** The package variables change in [InitLogger] only *)

Section Frame.
Context {Response World : Type} `{!Externals Response World}.
Abbreviation value := (value Response).
Abbreviation State := (State Response World).
Abbreviation M := (@M Response World).

Lemma keeps_ret {A} (a : A) : keeps_package (ret a : M A).
Proof. intros st. now split. Qed.

Lemma keeps_raise {A} p : keeps_package (raise p : M A).
Proof. intros st. now split. Qed.

Lemma keeps_exit {A} c : keeps_package (exit c : M A).
Proof. intros st. now split. Qed.

Lemma keeps_stack_exhausted {A} : keeps_package (stack_exhausted : M A).
Proof. intros st. now split. Qed.

Lemma keeps_bind {A B} (m : M A) (k : A -> M B) :
  keeps_package m -> (forall a, keeps_package (k a)) -> keeps_package (bind m k).
Proof.
  intros Hm Hk st. unfold bind. specialize (Hm st).
  destruct (m st) as [[a| | |] st1]; simpl in *; try exact Hm.
  destruct (Hk a st1) as [H1 H2]. destruct Hm as [H3 H4]. split; congruence.
Qed.

Lemma keeps_gets {A} (f : State -> A) : keeps_package (gets f).
Proof. intros st. now split. Qed.

Lemma keeps_sugared p : keeps_package (sugared p : M SugaredLogger).
Proof. destruct p; [apply keeps_ret | apply keeps_raise]. Qed.

Lemma keeps_log sl l msg (args : list value) :
  keeps_package (Sugared.log sl l msg args : M unit).
Proof.
  unfold Sugared.log. apply keeps_bind.
  - destruct (Enabled _ _); [intros st; now split | apply keeps_ret].
  - intros _. destruct l; try apply keeps_ret; try apply keeps_raise; try apply keeps_exit.
    destruct (Development _); [apply keeps_raise | apply keeps_ret].
Qed.

Lemma keeps_index s i : keeps_package (index s i : M value).
Proof. intros st. unfold index. destruct (_ !! _); now split. Qed.

Lemma keeps_set_index s i (v : value) : keeps_package (set_index s i v : M unit).
Proof. intros st. unfold set_index. destruct (_ <? _)%nat; now split. Qed.

Lemma keeps_append1 s (v : value) : keeps_package (append1 s v : M slice).
Proof. intros st. unfold append1. destruct (_ <? _)%nat; now split. Qed.

Lemma keeps_spread s : keeps_package (spread s : M (list value)).
Proof. apply keeps_gets. Qed.

Lemma keeps_dumpResponse r : keeps_package (dumpResponse r : M DumpResult).
Proof. intros st. unfold dumpResponse. destruct (DumpResponse _ _). now split. Qed.

Lemma keeps_for_each {A} positions (body : nat -> A -> M A) acc :
  (forall i a, keeps_package (body i a)) -> keeps_package (for_each positions body acc).
Proof.
  intros Hb. revert acc. induction positions as [|i rest IH]; intros acc; simpl.
  - apply keeps_ret.
  - apply keeps_bind; [apply Hb | intros a; apply IH].
Qed.

Lemma keeps_NewLogger d : keeps_package (NewLogger d : M _).
Proof.
  intros st. rewrite NewLogger_eq.
  destruct (Build _ _) as [[e|] w]; now split.
Qed.

End Frame.

(** Goals [keeps_package m] for [m] built from the pieces above. *)
Ltac keeps_step :=
  first
    [ apply keeps_ret | apply keeps_raise | apply keeps_exit | apply keeps_stack_exhausted
    | apply keeps_gets | apply keeps_sugared | apply keeps_log | apply keeps_index
    | apply keeps_set_index | apply keeps_append1 | apply keeps_spread
    | apply keeps_dumpResponse | apply keeps_NewLogger
    | assumption
    | apply keeps_bind; [| intros ?]
    | match goal with
      | |- keeps_package (match ?x with _ => _ end) => destruct x
      end ].
Ltac keeps := repeat keeps_step.

Section Reachability.
Context {Response World : Type} `{!Externals Response World}.
Abbreviation value := (value Response).
Abbreviation State := (State Response World).
Abbreviation M := (@M Response World).

Lemma keeps_Golog_CheckErr err msg p : keeps_package (Golog.CheckErr err msg p : M bool).
Proof.
  unfold Golog.CheckErr, GetLogger, Sugared.DPanicf, Sugared.Errorf. keeps.
Qed.

Lemma keeps_Log_pair_step rec key val (acc : list value) :
  (forall err p msg kv, keeps_package (rec err p msg kv : M bool)) ->
  keeps_package (Log.pair_step rec key val acc).
Proof.
  intros Hrec. unfold Log.pair_step. destruct val; keeps. apply Hrec.
Qed.

Lemma keeps_Log_pairs rec (kv acc : list value) :
  (forall err p msg kv, keeps_package (rec err p msg kv : M bool)) ->
  keeps_package (Log.pairs rec kv acc).
Proof.
  intros Hrec. revert acc.
  induction kv as [kv IH] using (induction_ltof1 _ (@length value)); unfold ltof in IH.
  intros acc. destruct kv as [|key [|val rest]]; cbn [Log.pairs].
  - apply keeps_ret.
  - now apply keeps_Log_pair_step.
  - apply keeps_bind; [now apply keeps_Log_pair_step | intros a; apply IH; simpl; lia].
Qed.

Lemma keeps_Log_CheckErr fuel err p msg (kv : list value) :
  keeps_package (Log.CheckErr fuel err p msg kv).
Proof.
  revert err p msg kv. induction fuel as [|fuel IH]; intros err p msg kv;
    destruct err as [e|]; simpl; try apply keeps_ret; try apply keeps_stack_exhausted.
  apply keeps_bind; [now apply keeps_Log_pairs | intros a].
  unfold GetLogger, Sugared.Panicw, Sugared.Errorw. keeps.
Qed.

Lemma keeps_LogPairs_CheckErr err p msg s :
  keeps_package (LogPairs.CheckErr err p msg s : M bool).
Proof.
  unfold LogPairs.CheckErr. destruct err as [e|]; [| apply keeps_ret].
  apply keeps_bind; [keeps | intros s'].
  apply keeps_bind.
  - apply keeps_for_each. intros i a. unfold LogPairs.pair_step, GetLogger, Sugared.Warnw. keeps.
  - intros a. unfold GetLogger, Sugared.Panicw, Sugared.Errorw. keeps.
Qed.

Lemma keeps_LogInPlace_CheckErr err p msg s :
  keeps_package (LogInPlace.CheckErr err p msg s : M bool).
Proof.
  unfold LogInPlace.CheckErr. destruct err as [e|]; [| apply keeps_ret].
  apply keeps_bind; [keeps | intros s'].
  apply keeps_bind.
  - apply keeps_for_each. intros i a. unfold LogInPlace.dump_step, GetLogger, Sugared.Warnw. keeps.
  - intros a. unfold GetLogger, Sugared.Panicw, Sugared.Errorw. keeps.
Qed.

(** Every call but [InitLogger] leaves the guard and the logger alone. *)
Lemma api_keeps_package (m : M unit) :
  api m -> (exists d, m = InitLogger d) \/ keeps_package m.
Proof.
  intros Hm. destruct Hm; [left; eauto | right ..];
    unfold Info, Debug, Warn, Error, Fatal, Panic, Debugf, Infof, Warnf, Errorf, Fatalf, Panicf,
      GetLogger, Sugared.Infow, Sugared.Debugw, Sugared.Warnw, Sugared.Errorw, Sugared.Fatalw,
      Sugared.Panicw, Sugared.Debugf, Sugared.Infof, Sugared.Warnf, Sugared.Errorf,
      Sugared.Fatalf, Sugared.Panicf;
    first [ apply keeps_bind; [first [ apply keeps_Golog_CheckErr | apply keeps_Log_CheckErr
                                    | apply keeps_LogPairs_CheckErr
                                    | apply keeps_LogInPlace_CheckErr ] | intros ?; apply keeps_ret]
          | keeps ].
Qed.

(** Once the guard is set, no call changes it or the logger. *)
Lemma api_after_init (m : M unit) (st : State) :
  api m -> once_done st = true ->
  once_done (snd (m st)) = true /\ logger (snd (m st)) = logger st.
Proof.
  intros Hm Hd. destruct (api_keeps_package m Hm) as [[d ->] | K].
  - rewrite InitLogger_done by assumption. now split.
  - destruct (K st) as [K1 K2]. split; congruence.
Qed.

(** Before [InitLogger] has run there is no logger. *)
Lemma reachable_no_logger (st : State) :
  reachable st -> once_done st = false -> logger st = None.
Proof.
  induction 1 as [w h | st w h Hr IH | st m Hr IH Hm]; simpl; intros Hd.
  - reflexivity.
  - now apply IH.
  - destruct (api_keeps_package m Hm) as [[d ->] | K].
    + destruct (once_done st) eqn:E.
      * rewrite InitLogger_done in Hd by assumption. simpl in Hd. congruence.
      * rewrite InitLogger_first in Hd by assumption.
        destruct (Build _ _) as [[e|] w]; simpl in Hd; discriminate.
    + destruct (K st) as [K1 K2]. rewrite K2. apply IH. congruence.
Qed.

End Reachability.

(** ** Slices and the store *)

Section SliceFacts.
Context {Response World : Type} `{!Externals Response World}.
Abbreviation value := (value Response).
Abbreviation State := (State Response World).
Abbreviation M := (@M Response World).

Lemma div2_SS n : S (S n) / 2 = S (n / 2).
Proof. change (S (S n)) with (1 * 2 + n). now rewrite Nat.div_add_l. Qed.

Lemma even_SS_length (key val : value) rest :
  Nat.even (length (key :: val :: rest)) = Nat.even (length rest).
Proof. reflexivity. Qed.

(** Induction over a list two elements at a time. *)
Lemma pair_ind {A} (P : list A -> Prop) :
  P [] -> (forall x, P [x]) -> (forall x y l, P l -> P (x :: y :: l)) -> forall l, P l.
Proof.
  intros H0 H1 H2 l.
  enough (P l /\ forall x, P (x :: l)) by tauto.
  induction l as [|y l [IH1 IH2]]; split; auto.
Qed.

Lemma set_heap_upd (st : State) h : set_heap h st = upd st [] (world st) h.
Proof. unfold upd, set_heap. destruct st as [o [lg|] n out w0 h0 rs sm]; simpl; now rewrite app_nil_r. Qed.

Lemma set_world_upd (st : State) w : set_world w st = upd st [] w (heap st).
Proof. unfold upd, set_world. destruct st as [o [lg|] n out w0 h0 rs sm]; simpl; now rewrite app_nil_r. Qed.

Lemma alter_as_insert (h : list (list value)) k f a :
  h !! k = Some a -> alter f k h = <[k := f a]> h.
Proof.
  intros E. apply list_eq. intros i. destruct (decide (i = k)) as [->|Hne].
  - rewrite list_lookup_alter_eq, E. simpl.
    symmetry. apply list_lookup_insert_eq. now apply lookup_lt_Some in E.
  - rewrite list_lookup_alter_ne by congruence.
    now rewrite list_lookup_insert_ne by congruence.
Qed.

Lemma default_lookup_insert (h : list (list value)) k a :
  k < length h -> default [] (<[k := a]> h !! k) = a.
Proof. intros Hk. now rewrite list_lookup_insert_eq. Qed.

Lemma default_nonempty (h : list (list value)) k (a : list value) :
  default [] (h !! k) = a -> a <> [] -> h !! k = Some a.
Proof. destruct (h !! k); simpl; intros; congruence. Qed.

Lemma insert_default_id (h : list (list value)) k :
  <[k := default [] (h !! k)]> h = h.
Proof.
  apply list_insert_id'. intros Hk.
  destruct (lookup_lt_is_Some_2 h k Hk) as [a E]. now rewrite E.
Qed.

(** The part of an array a slice shows, and what is around it. *)
Lemma slice_decompose (a : list value) off len :
  off + len <= length a ->
  a = take off a ++ take len (drop off a) ++ drop (off + len) a.
Proof.
  intros _. rewrite <- (take_drop off a) at 1. f_equal.
  rewrite <- (take_drop len (drop off a)) at 1. f_equal.
  now rewrite drop_drop.
Qed.

Lemma read_slice_window (h : list (list value)) s front window post :
  default [] (h !! s_arr s) = front ++ window ++ post ->
  length front = s_off s -> length window = s_len s ->
  read_slice h s = window.
Proof.
  intros E Hf Hw. unfold read_slice. rewrite E.
  rewrite drop_app_length' by congruence.
  now rewrite take_app_length' by congruence.
Qed.

Lemma valid_slice_window (h : list (list value)) s :
  valid_slice h s ->
  exists front post,
    default [] (h !! s_arr s) = front ++ read_slice h s ++ post /\
    length front = s_off s /\ length (read_slice h s) = s_len s /\
    s_cap s - s_len s <= length post.
Proof.
  intros [Hlen Hcap]. set (a := default [] (h !! s_arr s)) in *.
  exists (take (s_off s) a), (drop (s_off s + s_len s) a).
  unfold read_slice. fold a. split; [| split; [| split]].
  - apply slice_decompose. lia.
  - rewrite length_take. lia.
  - rewrite length_take, length_drop. lia.
  - rewrite length_drop. lia.
Qed.

Lemma read_slice_other (h : list (list value)) s k a :
  k <> s_arr s -> read_slice (<[k := a]> h) s = read_slice h s.
Proof. intros Hne. unfold read_slice. now rewrite list_lookup_insert_ne. Qed.

Lemma read_slice_app_heap (h : list (list value)) s a :
  s_arr s < length h -> read_slice (h ++ [a]) s = read_slice h s.
Proof. intros Hlt. unfold read_slice. now rewrite lookup_app_l. Qed.

(** Reading an element that the slice shows. *)
Lemma index_window (st : State) s front done key rest post (i : nat) :
  default [] (heap st !! s_arr s) = front ++ done ++ key :: rest ++ post ->
  length front = s_off s -> length done = i -> i + S (length rest) = s_len s ->
  index s i st = (Returned key, st).
Proof.
  intros E Hf Hd Hl. unfold index.
  rewrite (read_slice_window _ s front (done ++ key :: rest) post).
  - rewrite lookup_app_r by lia. replace (i - length done) with 0 by lia. reflexivity.
  - rewrite E. now rewrite <- !app_assoc.
  - assumption.
  - rewrite length_app. simpl. lia.
Qed.

(** Overwriting an element that the slice shows. *)
Lemma set_index_window (st : State) s front done key rest post (i : nat) (v : value) :
  default [] (heap st !! s_arr s) = front ++ done ++ key :: rest ++ post ->
  length front = s_off s -> length done = i -> i + S (length rest) = s_len s ->
  set_index s i v st
  = (Returned tt,
     upd st [] (world st) (<[s_arr s := front ++ done ++ v :: rest ++ post]> (heap st))).
Proof.
  intros E Hf Hd Hl. unfold set_index.
  assert (Hlt : (i <? s_len s)%nat = true) by (apply Nat.ltb_lt; lia).
  rewrite Hlt.
  assert (Ha : heap st !! s_arr s = Some (front ++ done ++ key :: rest ++ post)).
  { apply default_nonempty; [assumption |]. intros Hn.
    apply (f_equal length) in Hn. rewrite !length_app in Hn. simpl in Hn. lia. }
  rewrite (alter_as_insert _ _ _ _ Ha).
  rewrite set_heap_upd. do 3 f_equal.
  replace (s_off s + i) with (length front + (length done + 0)) by lia.
  now rewrite !insert_app_r.
Qed.

(** [append] in both its cases: the new header shows the old elements and
    the new one; the old header shows what it showed. *)
Lemma append1_spec (st : State) s (v : value) :
  valid_slice (heap st) s ->
  exists s' h',
    append1 s v st = (Returned s', upd st [] (world st) h') /\
    valid_slice h' s' /\
    s_len s' = S (s_len s) /\
    read_slice h' s' = read_slice (heap st) s ++ [v] /\
    read_slice h' s = read_slice (heap st) s /\
    ((s_len s < s_cap s /\ s_arr s' = s_arr s /\ s_off s' = s_off s) \/
     (s_len s = s_cap s /\ s_arr s' = length (heap st) /\
      h' = heap st ++ [default [] (h' !! s_arr s')])).
Proof.
  intros Hv. destruct (valid_slice_window _ _ Hv) as (front & post & E & Hf & Hw & Hp).
  destruct Hv as [Hlen Hcap]. unfold append1.
  destruct (s_len s <? s_cap s)%nat eqn:Hlt.
  - apply Nat.ltb_lt in Hlt. destruct post as [|x post]; [simpl in Hp; lia |].
    assert (Ha : heap st !! s_arr s = Some (front ++ read_slice (heap st) s ++ x :: post)).
    { apply default_nonempty; [assumption |]. intros Hn.
      apply (f_equal length) in Hn. rewrite !length_app in Hn. simpl in Hn. lia. }
    rewrite (alter_as_insert _ _ _ _ Ha).
    replace (s_off s + s_len s)
      with (length front + (length (read_slice (heap st) s) + 0)) by lia.
    rewrite !insert_app_r. simpl.
    assert (Hk : s_arr s < length (heap st)) by (now apply lookup_lt_Some in Ha).
    eexists _, _. split; [| split; [| split; [| split; [| split]]]].
    + rewrite set_heap_upd. reflexivity.
    + split; simpl; [lia |]. rewrite list_lookup_insert_eq by assumption. simpl.
      rewrite Ha in Hcap. simpl in Hcap. rewrite !length_app in *. simpl in *. lia.
    + reflexivity.
    + apply (read_slice_window _ _ front (read_slice (heap st) s ++ [v]) post); simpl.
      * rewrite list_lookup_insert_eq by assumption. simpl. now rewrite <- !app_assoc.
      * assumption.
      * rewrite length_app. simpl. lia.
    + apply (read_slice_window _ _ front (read_slice (heap st) s) (v :: post)); simpl.
      * now rewrite list_lookup_insert_eq by assumption.
      * assumption.
      * assumption.
    + left. simpl. auto.
  - apply Nat.ltb_ge in Hlt.
    eexists _, _. split; [| split; [| split; [| split; [| split]]]].
    + rewrite set_heap_upd. reflexivity.
    + split; simpl; [lia |]. rewrite lookup_app_r by lia. rewrite Nat.sub_diag. simpl.
      rewrite length_app. simpl. rewrite length_replicate. lia.
    + reflexivity.
    + unfold read_slice at 1. simpl. rewrite lookup_app_r by lia. rewrite Nat.sub_diag. simpl.
      rewrite drop_0. rewrite (cons_middle v), app_assoc. rewrite take_app_length'; [reflexivity |].
      rewrite length_app. simpl. lia.
    + unfold read_slice. destruct (heap st !! s_arr s) as [a|] eqn:Ha.
      * rewrite lookup_app_l by (now apply lookup_lt_Some in Ha). now rewrite Ha.
      * simpl. rewrite drop_nil, take_nil.
        destruct ((heap st ++ _) !! s_arr s) as [a|] eqn:Hb; simpl; [| now rewrite drop_nil, take_nil].
        simpl in Hcap. replace (s_len s) with 0 by lia. reflexivity.
    + right. simpl. split; [lia | split; [reflexivity |]].
      rewrite lookup_app_r by lia. rewrite Nat.sub_diag. reflexivity.
Qed.

(** A call with the arguments written out: the callee gets a full slice
    that shows exactly the arguments, and nothing else has changed. *)
Lemma variadic_spec (st : State) (args : list value) :
  exists s,
    fst (variadic args st) = Returned s /\
    valid_slice (heap (snd (variadic args st))) s /\
    read_slice (heap (snd (variadic args st))) s = args /\
    s_len s = length args /\ s_cap s = s_len s /\
    snd (variadic args st) = upd st [] (world st) (heap (snd (variadic args st))).
Proof.
  destruct args as [|a args].
  - exists (mkSlice 0 0 0 0). cbn [variadic fst snd].
    split; [reflexivity |]. split; [split; simpl; lia |]. split; [reflexivity |].
    split; [reflexivity |]. split; [reflexivity |]. now rewrite upd_id.
  - eexists. cbn [variadic fst snd]. split; [reflexivity |].
    assert (Hl : (heap st ++ [a :: args]) !! length (heap st) = Some (a :: args)).
    { rewrite lookup_app_r by lia. now rewrite Nat.sub_diag. }
    split; [| split; [| split; [| split]]].
    + split; cbn [s_len s_cap s_off s_arr heap set_heap]; [lia |]. rewrite Hl. simpl. lia.
    + unfold read_slice. cbn [s_len s_cap s_off s_arr heap set_heap]. rewrite Hl.
      cbn [default]. rewrite drop_0. now apply take_ge.
    + reflexivity.
    + reflexivity.
    + now rewrite set_heap_upd.
Qed.

End SliceFacts.

(** ** [LogInPlace.CheckErr]: the loop, then the whole call *)

Section InPlaceFacts.
Context {Response World : Type} `{!Externals Response World}.
Abbreviation value := (value Response).
Abbreviation Entry := (Entry Response).
Abbreviation State := (State Response World).
Abbreviation M := (@M Response World).

Lemma dumpResponse_eq r (st : State) :
  dumpResponse r st
  = (Returned (DumpResponse r (world st)).1, upd st [] (DumpResponse r (world st)).2 (heap st)).
Proof.
  unfold dumpResponse. destruct (DumpResponse r (world st)) as [d w]. simpl.
  now rewrite set_world_upd.
Qed.

Lemma bind_bind_returned {A B C} (m : M A) (k0 : A -> M B) (k : B -> M C) (st st' : State) a :
  m st = (Returned a, st') -> bind (bind m k0) k st = bind (k0 a) k st'.
Proof. intros E. unfold bind. now rewrite E. Qed.

Lemma get_sugared_bind {A B} (k0 : SugaredLogger -> M A) (k : A -> M B) (st : State) lg :
  logger st = Some lg ->
  bind (let* p := GetLogger in let* sl := sugared p in k0 sl) k st
  = bind (k0 (sugaredLogger lg)) k st.
Proof. intros E. unfold bind, GetLogger, gets. rewrite E. reflexivity. Qed.

Lemma world_upd (st : State) es w h : world (upd st es w h) = w.
Proof. reflexivity. Qed.

Lemma heap_upd (st : State) es w h : heap (upd st es w h) = h.
Proof. reflexivity. Qed.

Lemma logger_upd (st : State) es w h : logger (upd st es w h) = logger st.
Proof. reflexivity. Qed.

Lemma written_cons sl (e : Entry) es : written sl (e :: es) = written sl [e] ++ written sl es.
Proof. apply (written_app sl [e] es). Qed.

(** The in-place loop from pair [j] on: [done] is what it has been over,
    [todo] what is left. *)
Lemma dump_loop_spec lg (todo : list value) :
  forall front done post s j (st : State) fields errs w',
    default [] (heap st !! s_arr s) = front ++ done ++ todo ++ post ->
    length front = s_off s -> length done = 2 * j ->
    length done + length todo = s_len s ->
    Nat.even (length todo) = true ->
    logger st = Some lg ->
    dump_pairs keep_response todo (world st) = (fields, errs, w') ->
    for_each ((fun k => 2 * k + 1) <$> seq j (length todo / 2)) (LogInPlace.dump_step s) tt st
    = (Returned tt,
       upd st (written (sugaredLogger lg) (warn_entry <$> errs)) w'
           (<[s_arr s := front ++ done ++ fields ++ post]> (heap st))).
Proof.
  induction todo as [|x|key val rest IH] using pair_ind;
    intros front done post s j st fields errs w' E Hf Hd Hl Hev Hlg Hdp.
  - simpl in Hdp. injection Hdp as <- <- <-. simpl in *.
    rewrite <- E, insert_default_id. now rewrite upd_id.
  - discriminate.
  - cbn [length]. rewrite div2_SS. cbn [seq fmap list_fmap for_each].
    assert (E' : default [] (heap st !! s_arr s)
                 = front ++ (done ++ [key]) ++ val :: rest ++ post).
    { rewrite E. now rewrite <- !app_assoc. }
    assert (Hi : index s (2 * j + 1) st = (Returned val, st)).
    { apply (index_window st s front (done ++ [key]) val rest post); auto.
      - rewrite length_app. simpl. lia.
      - simpl in Hl. lia. }
    unfold LogInPlace.dump_step at 1.
    rewrite (bind_bind_returned _ _ _ _ _ _ Hi).
    simpl in Hev.
    assert (Hnext : forall (st1 : State) v es w1,
      st1 = upd st es w1 (<[s_arr s := front ++ (done ++ [key]) ++ v :: rest ++ post]> (heap st)) ->
      forall fields1 errs1 w2,
      dump_pairs keep_response rest w1 = (fields1, errs1, w2) ->
      for_each ((fun k => 2 * k + 1) <$> seq (S j) (length rest / 2)) (LogInPlace.dump_step s) tt st1
      = (Returned tt,
         upd st (es ++ written (sugaredLogger lg) (warn_entry <$> errs1)) w2
           (<[s_arr s := front ++ done ++ (key :: v :: fields1) ++ post]> (heap st)))).
    { intros st1 v es w1 -> fields1 errs1 w2 Hdp1.
      assert (Hk : s_arr s < length (heap st)).
      { apply (lookup_lt_Some _ _ (front ++ (done ++ [key]) ++ val :: rest ++ post)).
        apply default_nonempty; [assumption |]. intros Hn.
        apply (f_equal length) in Hn. rewrite !length_app in Hn. simpl in Hn. lia. }
      rewrite (IH front (done ++ [key; v]) post s (S j) _ fields1 errs1 w2); simpl.
      - rewrite upd_upd. rewrite list_insert_insert_eq.
        do 3 f_equal. now rewrite <- !app_assoc.
      - rewrite list_lookup_insert_eq by assumption. simpl. now rewrite <- !app_assoc.
      - assumption.
      - rewrite length_app. simpl. lia.
      - rewrite length_app. simpl in *. lia.
      - assumption.
      - assumption.
      - assumption. }
    assert (Hsame : front ++ (done ++ [key]) ++ val :: rest ++ post
                    = default [] (heap st !! s_arr s)) by (now rewrite E').
    destruct val as [| str | z | e | r | l];
      try (rewrite bind_ret_l; simpl in Hdp;
           destruct (dump_pairs keep_response rest (world st)) as [[f1 e1] w1] eqn:Hr;
           injection Hdp as <- <- <-;
           rewrite (Hnext st _ [] (world st)
                      ltac:(rewrite Hsame, insert_default_id; now rewrite upd_id) _ _ _ Hr);
           reflexivity).
    (* the value is a response *)
    rewrite (bind_bind_returned _ _ _ _ _ _ (dumpResponse_eq r st)).
    simpl in Hdp. destruct (DumpResponse r (world st)) as [[dump | dumpErr] w1] eqn:Hdump;
      cbn [fst snd].
    + destruct (dump_pairs keep_response rest w1) as [[f1 e1] w2] eqn:Hr.
      injection Hdp as <- <- <-.
      assert (Hset : set_index s (2 * j + 1) (VString dump) (upd st [] w1 (heap st))
                = (Returned tt,
                   upd (upd st [] w1 (heap st)) [] w1
                     (<[s_arr s := front ++ (done ++ [key]) ++ VString dump :: rest ++ post]>
                        (heap st)))).
      { apply (set_index_window (upd st [] w1 (heap st)) s front (done ++ [key])
                 (VResponse r) rest post (2 * j + 1) (VString dump)); simpl; auto.
        - rewrite length_app. simpl. lia.
        - simpl in Hl. lia. }
      rewrite (bind_returned _ _ _ _ _ Hset). rewrite upd_upd. cbn [app].
      rewrite (Hnext _ (VString dump) [] w1 eq_refl _ _ _ Hr). reflexivity.
    + destruct (dump_pairs keep_response rest w1) as [[f1 e1] w2] eqn:Hr.
      injection Hdp as <- <- <-.
      rewrite (get_sugared_bind _ _ (upd st [] w1 (heap st)) lg Hlg).
      unfold Sugared.Warnw.
      rewrite (bind_log_plain _ WarnLevel) by log_side.
      rewrite world_upd, heap_upd, upd_upd. cbn [app].
      rewrite <- (insert_default_id (heap st) (s_arr s)) at 1. rewrite <- Hsame.
      fold (@warn_entry Response dumpErr).
      rewrite (Hnext _ (VResponse r) (written (sugaredLogger lg) [warn_entry dumpErr]) w1
                 eq_refl _ _ _ Hr).
      change (warn_entry <$> dumpErr :: e1)
        with (@warn_entry Response dumpErr :: (warn_entry <$> e1)).
      rewrite (written_cons _ (@warn_entry Response dumpErr) (warn_entry <$> e1)).
      reflexivity.
Qed.

End InPlaceFacts.

Section InPlaceCall.
Context {Response World : Type} `{!Externals Response World}.
Abbreviation value := (value Response).
Abbreviation Entry := (Entry Response).
Abbreviation State := (State Response World).
Abbreviation M := (@M Response World).

Lemma mod2_even n : Nat.eqb (n mod 2) 0 = Nat.even n.
Proof.
  pose proof (Nat.div_mod_eq n 2) as Hdm.
  pose proof (Nat.mod_upper_bound n 2 ltac:(lia)) as Hub.
  destruct (Nat.even n) eqn:E.
  - apply Nat.even_spec in E as [k Hk]. apply Nat.eqb_eq. lia.
  - apply Nat.eqb_neq. intros Hm.
    assert (Nat.even n = true) by (apply Nat.even_spec; exists (n / 2); lia). congruence.
Qed.

Lemma dump_pairs_length on_fail (kv : list value) :
  forall w fields errs w',
    dump_pairs on_fail kv w = (fields, errs, w') -> length fields = length kv.
Proof.
  induction kv as [|x|key val rest IH] using pair_ind; intros w fields errs w' E.
  - injection E as <- _ _. reflexivity.
  - injection E as <- _ _. reflexivity.
  - simpl in E.
    destruct val;
      try (destruct (dump_pairs on_fail rest w) as [[f1 e1] w1] eqn:Hr;
           injection E as <- _ _; simpl; f_equal; f_equal; eapply IH; eassumption).
    destruct (DumpResponse r w) as [[dump|dumpErr] w0];
      destruct (dump_pairs on_fail rest w0) as [[f1 e1] w1] eqn:Hr;
      injection E as <- _ _; simpl; f_equal; f_equal; eapply IH; eassumption.
Qed.

(** Padding an odd sequence adds the placeholder to the fields and nothing
    else. *)
Lemma dump_pairs_odd on_fail (kv : list value) :
  forall w fields errs w',
    Nat.even (length kv) = false ->
    dump_pairs on_fail kv w = (fields, errs, w') ->
    dump_pairs on_fail (kv ++ [placeholder]) w = (fields ++ [placeholder], errs, w').
Proof.
  induction kv as [|x|key val rest IH] using pair_ind; intros w fields errs w' Hodd E.
  - discriminate.
  - injection E as <- <- <-. reflexivity.
  - simpl in Hodd. simpl in E. cbn [app dump_pairs].
    destruct val;
      try (destruct (dump_pairs on_fail rest w) as [[f1 e1] w1] eqn:Hr;
           injection E as <- <- <-; now rewrite (IH _ _ _ _ Hodd Hr)).
    destruct (DumpResponse r w) as [[dump|dumpErr] w0];
      destruct (dump_pairs on_fail rest w0) as [[f1 e1] w1] eqn:Hr;
      injection E as <- <- <-; now rewrite (IH _ _ _ _ Hodd Hr).
Qed.

Lemma default_insert_window (h : list (list value)) k front c fields post :
  default [] (h !! k) = front ++ c ++ post ->
  length fields = length c ->
  default [] (<[k := front ++ fields ++ post]> h !! k) = front ++ fields ++ post.
Proof.
  intros E Hl. destruct (decide (k < length h)) as [Hk|Hk].
  - now rewrite list_lookup_insert_eq.
  - rewrite list_insert_ge by lia. rewrite E.
    rewrite lookup_ge_None_2 in E by lia. simpl in E.
    symmetry in E. apply app_eq_nil in E as [-> E]. apply app_eq_nil in E as [-> ->].
    destruct fields; [reflexivity | discriminate].
Qed.

(** The whole call with a logger in place.  [fields] are the context of the
    caller, padded, after the dumps; [errs] the dump errors met. *)
Lemma LogInPlace_CheckErr_spec (st : State) e (flag : bool) msg s lg fields errs w' :
  valid_slice (heap st) s ->
  logger st = Some lg ->
  dump_pairs keep_response (pad (read_slice (heap st) s)) (world st) = (fields, errs, w') ->
  exists h',
    LogInPlace.CheckErr (Some e) flag msg s st
    = (if flag then Panicked (LogPanic msg) else Returned true,
       upd st (written (sugaredLogger lg)
                 ((warn_entry <$> errs) ++
                  [mkEntry (if flag then PanicLevel else ErrorLevel) msg
                           (VString "error" :: VError e :: fields)]))
           w' h') /\
    read_slice h' s
    = if Nat.even (s_len s) || (s_len s <? s_cap s)%nat
      then take (s_len s) fields
      else read_slice (heap st) s.
Proof.
  intros Hv Hlg Hdp.
  assert (Hfinish : forall (st1 : State) (s1 : slice) h1,
    st1 = upd st (written (sugaredLogger lg) (warn_entry <$> errs)) w' h1 ->
    read_slice h1 s1 = fields ->
    (let* rest := spread s1 in
     let* p := GetLogger in let* logger := sugared p in
     (if flag
      then Sugared.Panicw logger msg ([VString "error"; VError e] ++ rest)
      else Sugared.Errorw logger msg ([VString "error"; VError e] ++ rest)) ;;;
     ret true) st1
    = (if flag then Panicked (LogPanic msg) else Returned true,
       upd st (written (sugaredLogger lg)
                 ((warn_entry <$> errs) ++
                  [mkEntry (if flag then PanicLevel else ErrorLevel) msg
                           (VString "error" :: VError e :: fields)]))
           w' h1)).
  { intros st1 s1 h1 -> Hread.
    unfold spread, gets. unfold bind at 1. rewrite heap_upd, Hread.
    rewrite get_sugared with (lg := lg) by assumption.
    rewrite written_app. destruct flag.
    - unfold Sugared.Panicw.
      rewrite bind_log_panic by log_side.
      now rewrite world_upd, heap_upd, upd_upd.
    - unfold Sugared.Errorw.
      rewrite (bind_log_plain _ ErrorLevel) by log_side.
      unfold ret. now rewrite world_upd, heap_upd, upd_upd. }
  pose proof (dump_pairs_length _ _ _ _ _ _ Hdp) as Hlen.
  unfold LogInPlace.CheckErr. rewrite mod2_even.
  destruct (valid_slice_window _ _ Hv) as (front & post & E & Hf & Hw & Hp).
  unfold pad in Hdp, Hlen. rewrite Hw in Hdp, Hlen.
  destruct (Nat.even (s_len s)) eqn:Hev.
  - (* even: the caller's slice is worked on as it is *)
    rewrite bind_ret_l.
    pose proof (dump_loop_spec lg (read_slice (heap st) s) front [] post s 0 st fields errs w'
                  E Hf eq_refl ltac:(simpl; lia) ltac:(now rewrite Hw) Hlg Hdp) as Hloop.
    rewrite Hw in Hloop. fold (value_positions (s_len s)) in Hloop.
    exists (<[s_arr s := front ++ fields ++ post]> (heap st)). split.
    + rewrite (bind_returned _ _ _ _ _ Hloop).
      apply (Hfinish _ s); [reflexivity |].
      apply (read_slice_window _ _ front fields post); [| assumption | congruence].
      apply (default_insert_window _ _ _ (read_slice (heap st) s)); [assumption | congruence].
    + simpl. rewrite take_ge by lia.
      apply (read_slice_window _ _ front fields post); [| assumption | congruence].
      apply (default_insert_window _ _ _ (read_slice (heap st) s)); [assumption | congruence].
  - (* odd: the placeholder is appended first *)
    destruct (append1_spec st s placeholder Hv)
      as (s1 & h1 & Happ & Hv1 & Hlen1 & Hread1 & Hold & Hcase).
    fold (@placeholder Response).
    rewrite (bind_returned _ _ _ _ _ Happ).
    destruct (valid_slice_window _ _ Hv1) as (front1 & post1 & E1 & Hf1 & Hw1 & Hp1).
    rewrite Hread1 in *.
    assert (Hev1 : Nat.even (length (read_slice (heap st) s ++ [placeholder])) = true).
    { rewrite length_app, Hw. simpl. rewrite Nat.add_1_r, Nat.even_succ.
      rewrite <- Nat.negb_even. now rewrite Hev. }
    pose proof (dump_loop_spec lg _ front1 [] post1 s1 0 (upd st [] (world st) h1)
                  fields errs w' E1 Hf1 eq_refl ltac:(simpl; lia) Hev1 Hlg Hdp) as Hloop.
    rewrite Hw1 in Hloop. fold (value_positions (s_len s1)) in Hloop.
    rewrite upd_upd, heap_upd in Hloop. cbn [app] in Hloop.
    assert (Hwin1 : default [] (<[s_arr s1 := front1 ++ fields ++ post1]> h1 !! s_arr s1)
                    = front1 ++ fields ++ post1).
    { apply (default_insert_window _ _ _ (read_slice (heap st) s ++ [placeholder]));
        [assumption | congruence]. }
    exists (<[s_arr s1 := front1 ++ fields ++ post1]> h1). split.
    + rewrite (bind_returned _ _ _ _ _ Hloop).
      apply (Hfinish _ s1); [reflexivity |].
      apply (read_slice_window _ _ front1 fields post1); [assumption | assumption | congruence].
    + simpl. destruct Hcase as [(Hlt & Harr & Hoff) | (Heq & Harr & Hh1)].
      * assert ((s_len s <? s_cap s)%nat = true) as -> by (apply Nat.ltb_lt; lia).
        unfold read_slice. rewrite <- Harr, Hwin1.
        rewrite drop_app_length' by congruence.
        rewrite take_app_le by lia. reflexivity.
      * assert ((s_len s <? s_cap s)%nat = false) as -> by (apply Nat.ltb_ge; lia).
        rewrite read_slice_other; [assumption |].
        rewrite Harr. destruct Hv as [Hv1' Hv2'].
        destruct (heap st !! s_arr s) as [a|] eqn:Ha.
        -- apply lookup_lt_Some in Ha. lia.
        -- simpl in Hv2'. assert (s_len s = 0) by lia.
           rewrite H in Hev. discriminate.
Qed.

End InPlaceCall.

Section InPlaceNoLogger.
Context {Response World : Type} `{!Externals Response World}.
Abbreviation value := (value Response).
Abbreviation Entry := (Entry Response).
Abbreviation State := (State Response World).
Abbreviation M := (@M Response World).

Lemma get_sugared_nil_bind {A B} (k0 : SugaredLogger -> M A) (k : A -> M B) (st : State) :
  logger st = None ->
  bind (let* p := GetLogger in let* sl := sugared p in k0 sl) k st
  = (Panicked NilDereference, st).
Proof. intros E. unfold bind, GetLogger, gets. rewrite E. reflexivity. Qed.

(** Without a logger the in-place loop either gets through, or stops at the
    first failed dump on the nil dereference. *)
Lemma dump_loop_no_logger (todo : list value) :
  forall front done post s j (st : State),
    default [] (heap st !! s_arr s) = front ++ done ++ todo ++ post ->
    length front = s_off s -> length done = 2 * j ->
    length done + length todo = s_len s ->
    Nat.even (length todo) = true ->
    logger st = None ->
    exists st',
      (for_each ((fun k => 2 * k + 1) <$> seq j (length todo / 2)) (LogInPlace.dump_step s) tt st
       = (Returned tt, st') /\ logger st' = None)
      \/ for_each ((fun k => 2 * k + 1) <$> seq j (length todo / 2)) (LogInPlace.dump_step s) tt st
         = (Panicked NilDereference, st').
Proof.
  induction todo as [|x|key val rest IH] using pair_ind;
    intros front done post s j st E Hf Hd Hl Hev Hlg.
  - exists st. left. now split.
  - discriminate.
  - cbn [length]. rewrite div2_SS. cbn [seq fmap list_fmap for_each].
    assert (E' : default [] (heap st !! s_arr s)
                 = front ++ (done ++ [key]) ++ val :: rest ++ post).
    { rewrite E. now rewrite <- !app_assoc. }
    assert (Hi : index s (2 * j + 1) st = (Returned val, st)).
    { apply (index_window st s front (done ++ [key]) val rest post); auto.
      - rewrite length_app. simpl. lia.
      - simpl in Hl. lia. }
    unfold LogInPlace.dump_step at 1 3.
    rewrite !(bind_bind_returned _ _ _ _ _ _ Hi).
    simpl in Hev.
    assert (Hsame : forall v, v = val ->
      default [] (heap st !! s_arr s) = front ++ (done ++ [key; v]) ++ rest ++ post).
    { intros v ->. rewrite E. now rewrite <- !app_assoc. }
    assert (Hld : length (done ++ [key; val]) = 2 * S j) by (rewrite length_app; simpl; lia).
    assert (Hll : length (done ++ [key; val]) + length rest = s_len s)
      by (rewrite length_app; simpl in *; lia).
    destruct val as [| str | z | e | r | l];
      try (rewrite !bind_ret_l;
           apply (IH front (done ++ [key; _]) post s (S j) st (Hsame _ eq_refl) Hf Hld Hll Hev Hlg)).
    rewrite !(bind_bind_returned _ _ _ _ _ _ (dumpResponse_eq r st)).
    destruct (DumpResponse r (world st)) as [[dump | dumpErr] w1]; cbn [fst snd].
    + assert (Hset : set_index s (2 * j + 1) (VString dump) (upd st [] w1 (heap st))
                = (Returned tt,
                   upd (upd st [] w1 (heap st)) [] w1
                     (<[s_arr s := front ++ (done ++ [key]) ++ VString dump :: rest ++ post]>
                        (heap st)))).
      { apply (set_index_window (upd st [] w1 (heap st)) s front (done ++ [key])
                 (VResponse r) rest post (2 * j + 1) (VString dump)); simpl; auto.
        - rewrite length_app. simpl. lia.
        - simpl in Hl. lia. }
      rewrite !(bind_returned _ _ _ _ _ Hset).
      assert (Hk : s_arr s < length (heap st)).
      { apply (lookup_lt_Some _ _ (front ++ (done ++ [key]) ++ VResponse r :: rest ++ post)).
        apply default_nonempty; [assumption |]. intros Hn.
        apply (f_equal length) in Hn. rewrite !length_app in Hn. simpl in Hn. lia. }
      apply (IH front (done ++ [key; VString dump]) post s (S j)); simpl; auto.
      * rewrite list_lookup_insert_eq by assumption. simpl. now rewrite <- !app_assoc.
      * rewrite length_app. simpl. lia.
      * rewrite length_app. simpl in *. lia.
    + exists (upd st [] w1 (heap st)). right.
      now rewrite (get_sugared_nil_bind _ _ (upd st [] w1 (heap st)) Hlg).
Qed.

(** [CheckErr] on a non-nil error with no logger: a nil dereference, at the
    first failed dump or else where the entry is to be written. *)
Lemma LogInPlace_CheckErr_no_logger (st : State) e (flag : bool) msg s :
  valid_slice (heap st) s ->
  logger st = None ->
  exists st', LogInPlace.CheckErr (Some e) flag msg s st = (Panicked NilDereference, st').
Proof.
  intros Hv Hlg.
  assert (Hgo : forall (st1 : State) s1,
    valid_slice (heap st1) s1 -> logger st1 = None -> Nat.even (s_len s1) = true ->
    exists st',
      (for_each (value_positions (s_len s1)) (LogInPlace.dump_step s1) tt ;;;
       let* rest := spread s1 in
       let* p := GetLogger in let* logger := sugared p in
       (if flag
        then Sugared.Panicw logger msg ([VString "error"; VError e] ++ rest)
        else Sugared.Errorw logger msg ([VString "error"; VError e] ++ rest)) ;;;
       ret true) st1 = (Panicked NilDereference, st')).
  { intros st1 s1 Hv1 Hlg1 Hev1.
    destruct (valid_slice_window _ _ Hv1) as (front & post & E & Hf & Hw & Hp).
    destruct (dump_loop_no_logger _ front [] post s1 0 st1 E Hf eq_refl
                ltac:(simpl; lia) ltac:(now rewrite Hw) Hlg1) as (st' & [[Hr Hl] | Hp']);
      rewrite Hw in *; fold (value_positions (s_len s1)) in *.
    - exists st'. rewrite (bind_returned _ _ _ _ _ Hr).
      unfold spread, gets. unfold bind at 1.
      now apply get_sugared_nil.
    - exists st'. now rewrite (bind_panicked _ _ _ _ _ Hp'). }
  unfold LogInPlace.CheckErr. rewrite mod2_even.
  destruct (Nat.even (s_len s)) eqn:Hev.
  - rewrite bind_ret_l. now apply Hgo.
  - destruct (append1_spec st s placeholder Hv)
      as (s1 & h1 & Happ & Hv1 & Hlen1 & Hread1 & Hold & Hcase).
    fold (@placeholder Response).
    rewrite (bind_returned _ _ _ _ _ Happ).
    apply Hgo; simpl; auto.
    rewrite Hlen1, Nat.even_succ, <- Nat.negb_even. now rewrite Hev.
Qed.

End InPlaceNoLogger.

(** ** [LogPairs.CheckErr]: the loop, then the whole call *)

Section PairsFacts.
Context {Response World : Type} `{!Externals Response World}.
Abbreviation value := (value Response).
Abbreviation Entry := (Entry Response).
Abbreviation State := (State Response World).
Abbreviation M := (@M Response World).

Lemma even_half n : Nat.even n = true -> (n + 1) / 2 = n / 2.
Proof.
  intros E. apply Nat.even_spec in E as [k Hk].
  pose proof (Nat.div_mod_eq n 2). pose proof (Nat.div_mod_eq (n + 1) 2).
  pose proof (Nat.mod_upper_bound n 2 ltac:(lia)).
  pose proof (Nat.mod_upper_bound (n + 1) 2 ltac:(lia)). lia.
Qed.

Lemma index_read (st : State) s i (v : value) :
  read_slice (heap st) s !! i = Some v -> index s i st = (Returned v, st).
Proof. intros E. unfold index. now rewrite E. Qed.

(** The pairing loop from pair [j] on; the store is only read. *)
Lemma pairs_loop_spec lg (todo : list value) :
  forall done s j (st : State) acc fields errs w',
    read_slice (heap st) s = done ++ todo ->
    length done = 2 * j ->
    Nat.even (length todo) = true ->
    logger st = Some lg ->
    dump_pairs failure_text todo (world st) = (fields, errs, w') ->
    for_each ((fun k => 2 * k) <$> seq j (length todo / 2)) (LogPairs.pair_step s) acc st
    = (Returned (acc ++ fields),
       upd st (written (sugaredLogger lg) (warn_entry <$> errs)) w' (heap st)).
Proof.
  induction todo as [|x|key val rest IH] using pair_ind;
    intros done s j st acc fields errs w' E Hd Hev Hlg Hdp.
  - simpl in Hdp. injection Hdp as <- <- <-. simpl.
    now rewrite upd_id, app_nil_r.
  - discriminate.
  - cbn [length]. rewrite div2_SS. cbn [seq fmap list_fmap for_each].
    assert (Hkey : index s (2 * j) st = (Returned key, st)).
    { apply index_read. rewrite E, lookup_app_r by lia.
      now replace (2 * j - length done) with 0 by lia. }
    assert (Hval : forall st1 : State, heap st1 = heap st ->
              index s (2 * j + 1) st1 = (Returned val, st1)).
    { intros st1 Hh. apply index_read. rewrite Hh, E, lookup_app_r by lia.
      now replace (2 * j + 1 - length done) with 1 by lia. }
    unfold LogPairs.pair_step at 1.
    rewrite (bind_bind_returned _ _ _ _ _ _ Hkey).
    rewrite (bind_bind_returned _ _ _ _ _ _ (Hval st eq_refl)).
    simpl in Hev.
    assert (Hnext : forall (st1 : State) v es w1,
      st1 = upd st es w1 (heap st) ->
      forall fields1 errs1 w2,
      dump_pairs failure_text rest w1 = (fields1, errs1, w2) ->
      for_each ((fun k => 2 * k) <$> seq (S j) (length rest / 2)) (LogPairs.pair_step s)
               (acc ++ [key; v]) st1
      = (Returned (acc ++ key :: v :: fields1),
         upd st (es ++ written (sugaredLogger lg) (warn_entry <$> errs1)) w2 (heap st))).
    { intros st1 v es w1 -> fields1 errs1 w2 Hdp1.
      rewrite (IH (done ++ [key; val]) s (S j) _ _ fields1 errs1 w2); simpl.
      - rewrite upd_upd. now rewrite <- app_assoc.
      - rewrite E. now rewrite <- app_assoc.
      - rewrite length_app. simpl. lia.
      - assumption.
      - assumption.
      - assumption. }
    destruct val as [| str | z | e | r | l];
      try (rewrite bind_ret_l; simpl in Hdp;
           destruct (dump_pairs failure_text rest (world st)) as [[f1 e1] w1] eqn:Hr;
           injection Hdp as <- <- <-;
           rewrite (Hnext st _ [] (world st) ltac:(now rewrite upd_id) _ _ _ Hr);
           reflexivity).
    rewrite (bind_bind_returned _ _ _ _ _ _ (dumpResponse_eq r st)).
    simpl in Hdp. destruct (DumpResponse r (world st)) as [[dump | dumpErr] w1] eqn:Hdump;
      cbn [fst snd].
    + destruct (dump_pairs failure_text rest w1) as [[f1 e1] w2] eqn:Hr.
      injection Hdp as <- <- <-. rewrite bind_ret_l.
      rewrite (Hnext _ (VString dump) [] w1 eq_refl _ _ _ Hr). reflexivity.
    + destruct (dump_pairs failure_text rest w1) as [[f1 e1] w2] eqn:Hr.
      injection Hdp as <- <- <-.
      rewrite (get_sugared_bind _ _ (upd st [] w1 (heap st)) lg Hlg).
      unfold Sugared.Warnw.
      rewrite (bind_bind_returned _ _ _ _ _ _
                 (log_plain lg WarnLevel _ _ (upd st [] w1 (heap st)) Hlg ltac:(simpl; lia))).
      rewrite bind_ret_l.
      rewrite world_upd, heap_upd, upd_upd. cbn [app].
      fold (@warn_entry Response dumpErr).
      rewrite (Hnext _ _ (written (sugaredLogger lg) [warn_entry dumpErr]) w1 eq_refl _ _ _ Hr).
      change (warn_entry <$> dumpErr :: e1)
        with (@warn_entry Response dumpErr :: (warn_entry <$> e1)).
      rewrite (written_cons _ (@warn_entry Response dumpErr) (warn_entry <$> e1)).
      reflexivity.
Qed.

(** The whole call with a logger in place; the caller's slice shows what it
    showed before. *)
Lemma LogPairs_CheckErr_spec (st : State) e (flag : bool) msg s lg fields errs w' :
  valid_slice (heap st) s ->
  logger st = Some lg ->
  dump_pairs failure_text (pad (read_slice (heap st) s)) (world st) = (fields, errs, w') ->
  exists h',
    LogPairs.CheckErr (Some e) flag msg s st
    = (if flag then Panicked (LogPanic msg) else Returned true,
       upd st (written (sugaredLogger lg)
                 ((warn_entry <$> errs) ++
                  [mkEntry (if flag then PanicLevel else ErrorLevel) msg
                           (VString "error" :: VError e :: fields)]))
           w' h') /\
    read_slice h' s = read_slice (heap st) s.
Proof.
  intros Hv Hlg Hdp.
  assert (Hgo : forall (st1 : State) s1 h1,
    st1 = upd st [] (world st) h1 ->
    read_slice h1 s1 = pad (read_slice (heap st) s) ->
    length (read_slice h1 s1) = s_len s1 ->
    Nat.even (s_len s1) = true ->
    (let* newKeysAndValues :=
       for_each (key_positions (s_len s1)) (LogPairs.pair_step s1) [VString "error"; VError e] in
     let* p := GetLogger in let* logger := sugared p in
     (if flag
      then Sugared.Panicw logger msg newKeysAndValues
      else Sugared.Errorw logger msg newKeysAndValues) ;;;
     ret true) st1
    = (if flag then Panicked (LogPanic msg) else Returned true,
       upd st (written (sugaredLogger lg)
                 ((warn_entry <$> errs) ++
                  [mkEntry (if flag then PanicLevel else ErrorLevel) msg
                           (VString "error" :: VError e :: fields)]))
           w' h1)).
  { intros st1 s1 h1 -> Hread Hlen Hev.
    pose proof (pairs_loop_spec lg (read_slice h1 s1) [] s1 0 (upd st [] (world st) h1)
                  [VString "error"; VError e] fields errs w' eq_refl eq_refl
                  ltac:(now rewrite Hlen) Hlg ltac:(now rewrite Hread)) as Hloop.
    rewrite Hlen in Hloop. unfold key_positions. rewrite even_half by assumption.
    rewrite (bind_returned _ _ _ _ _ Hloop).
    rewrite heap_upd, upd_upd. cbn [app].
    rewrite get_sugared with (lg := lg) by assumption.
    rewrite written_app. destruct flag.
    - unfold Sugared.Panicw.
      rewrite bind_log_panic by log_side.
      now rewrite world_upd, heap_upd, upd_upd.
    - unfold Sugared.Errorw.
      rewrite (bind_log_plain _ ErrorLevel) by log_side.
      unfold ret. now rewrite world_upd, heap_upd, upd_upd. }
  destruct (valid_slice_window _ _ Hv) as (front & post & E & Hf & Hw & Hp).
  unfold LogPairs.CheckErr. rewrite mod2_even.
  destruct (Nat.even (s_len s)) eqn:Hev.
  - rewrite bind_ret_l. exists (heap st). split; [| reflexivity].
    apply Hgo; auto.
    + now rewrite upd_id.
    + unfold pad. now rewrite Hw, Hev.
  - destruct (append1_spec st s placeholder Hv)
      as (s1 & h1 & Happ & Hv1 & Hlen1 & Hread1 & Hold & Hcase).
    fold (@placeholder Response).
    rewrite (bind_returned _ _ _ _ _ Happ).
    exists h1. split; [| assumption].
    apply Hgo; auto.
    + rewrite Hread1. unfold pad. now rewrite Hw, Hev.
    + rewrite Hread1, length_app, Hw, Hlen1. simpl. lia.
    + rewrite Hlen1, Nat.even_succ, <- Nat.negb_even. now rewrite Hev.
Qed.

End PairsFacts.

(** ** What [dump_pairs] does to each position *)

Section FieldFacts.
Context {Response World : Type} `{!Externals Response World}.
Abbreviation value := (value Response).
Abbreviation Entry := (Entry Response).
Abbreviation State := (State Response World).
Abbreviation M := (@M Response World).

Lemma pad_cons2 (key val : value) rest : pad (key :: val :: rest) = key :: val :: pad rest.
Proof. unfold pad. simpl. now destruct (Nat.even (length rest)). Qed.

Lemma pad_even (kv : list value) : Nat.even (length (pad kv)) = true.
Proof.
  unfold pad. destruct (Nat.even (length kv)) eqn:E; [assumption |].
  rewrite length_app. simpl. rewrite Nat.add_1_r, Nat.even_succ, <- Nat.negb_even.
  now rewrite E.
Qed.









Lemma written_all sl (es : list Entry) :
  Forall (fun x => Enabled (Level_ (config sl)) (entry_level x) = true) es ->
  written sl es = es.
Proof.
  induction 1 as [|x es Hx _ IH]; [reflexivity |].
  unfold written in *. simpl. now rewrite Hx, IH.
Qed.

Lemma written_sublist sl (es : list Entry) x : In x (written sl es) -> In x es.
Proof. unfold written. intros Hin. now apply List.filter_In in Hin. Qed.


End FieldFacts.

(** ** [Log.CheckErr] *)

Section LogFacts.
Context {Response World : Type} `{!Externals Response World}.
Abbreviation value := (value Response).
Abbreviation Entry := (Entry Response).
Abbreviation State := (State Response World).
Abbreviation M := (@M Response World).

Lemma bind_inv {A B} (m : M A) (k : A -> M B) (st st' : State) b :
  bind m k st = (Returned b, st') ->
  exists a st1, m st = (Returned a, st1) /\ k a st1 = (Returned b, st').
Proof.
  unfold bind. destruct (m st) as [[a| | |] st1]; intros E; try discriminate.
  now exists a, st1.
Qed.

Lemma Log_CheckErr_nil fuel p msg (kv : list value) (st : State) :
  Log.CheckErr fuel None p msg kv st = (Returned false, st).
Proof. destruct fuel; reflexivity. Qed.

(** When no dump fails, the nested calls are calls on a nil error, and the
    loop builds the fields of the padded context. *)
Lemma Log_pairs_no_failure fuel (kv : list value) :
  forall acc (st : State) fields w',
    dump_pairs failure_text (pad kv) (world st) = (fields, [], w') ->
    Log.pairs (Log.CheckErr fuel) kv acc st
    = (Returned (acc ++ fields), upd st [] w' (heap st)).
Proof.
  induction kv as [|x|key val rest IH] using pair_ind; intros acc st fields w' Hdp.
  - injection Hdp as <- <-. simpl. unfold ret. now rewrite upd_id, app_nil_r.
  - injection Hdp as <- <-. simpl. unfold ret. now rewrite upd_id.
  - rewrite pad_cons2 in Hdp. simpl in Hdp. cbn [Log.pairs].
    destruct val;
      try (destruct (dump_pairs failure_text (pad rest) (world st)) as [[f1 e1] w1] eqn:Hr;
           injection Hdp as <- -> <-;
           unfold Log.pair_step; rewrite bind_ret_l;
           rewrite (IH _ st _ _ Hr); now rewrite <- app_assoc).
    destruct (DumpResponse r (world st)) as [[dump|dumpErr] w0] eqn:Hd;
      destruct (dump_pairs failure_text (pad rest) w0) as [[f1 e1] w1] eqn:Hr;
      injection Hdp as <- He <-; [subst e1 | discriminate].
    unfold Log.pair_step.
    rewrite (bind_bind_returned _ _ _ _ _ _ (dumpResponse_eq r st)).
    rewrite Hd. cbn [fst snd].
    rewrite (bind_bind_returned _ _ _ _ _ _ (Log_CheckErr_nil _ _ _ _ _)).
    rewrite bind_ret_l.
    rewrite (IH _ (upd st [] w0 (heap st)) f1 w1 Hr).
    rewrite heap_upd, upd_upd. now rewrite <- app_assoc.
Qed.

Lemma Log_CheckErr_no_failure fuel (st : State) e (flag : bool) msg (kv : list value)
    lg fields w' :
  logger st = Some lg ->
  dump_pairs failure_text (pad kv) (world st) = (fields, [], w') ->
  Log.CheckErr (S fuel) (Some e) flag msg kv st
  = (if flag then Panicked (LogPanic msg) else Returned true,
     upd st (written (sugaredLogger lg)
               [mkEntry (if flag then PanicLevel else ErrorLevel) msg
                        [VSlice (VString "error" :: VError e :: fields)]])
         w' (heap st)).
Proof.
  intros Hlg Hdp. cbn [Log.CheckErr].
  rewrite (bind_returned _ _ _ _ _ (Log_pairs_no_failure fuel kv [] st fields w' Hdp)).
  cbn [app]. destruct flag.
  - rewrite (get_sugared_bind _ _ (upd st [] w' (heap st)) lg Hlg).
    unfold Sugared.Panicw.
    rewrite bind_log_panic by log_side.
    now rewrite world_upd, heap_upd, upd_upd.
  - rewrite bind_ret_l.
    rewrite (get_sugared _ (upd st [] w' (heap st)) lg Hlg).
    unfold Sugared.Errorw.
    rewrite (bind_log_plain _ ErrorLevel) by log_side.
    unfold ret. now rewrite world_upd, heap_upd, upd_upd.
Qed.


(** A response whose every dump fails: the nesting never ends. *)
Lemma Log_CheckErr_diverges fuel :
  forall e msg key r (rest : list value) (st : State),
    (forall w, exists dumpErr w', DumpResponse r w = (DumpFail dumpErr, w')) ->
    fst (Log.CheckErr fuel (Some e) false msg (key :: VResponse r :: rest) st) = StackExhausted.
Proof.
  induction fuel as [|fuel IH]; intros e msg key r rest st Hfail; [reflexivity |].
  cbn [Log.CheckErr Log.pairs]. unfold Log.pair_step.
  unfold bind at 1 2 3. rewrite dumpResponse_eq.
  destruct (Hfail (world st)) as (dumpErr & w' & Hd). rewrite Hd. cbn [fst snd].
  unfold bind at 1.
  specialize (IH dumpErr "can't dump HTTP response" (VString "response") r []
                 (upd st [] w' (heap st)) Hfail).
  destruct (Log.CheckErr fuel (Some dumpErr) false "can't dump HTTP response"
              [VString "response"; VResponse r] (upd st [] w' (heap st))) as [[b| | |] st2];
    simpl in IH; try discriminate. reflexivity.
Qed.

End LogFacts.

(** ** [Golog.CheckErr] and what the threshold lets through *)

Section GologFacts.
Context {Response World : Type} `{!Externals Response World}.
Abbreviation value := (value Response).
Abbreviation Entry := (Entry Response).
Abbreviation State := (State Response World).
Abbreviation M := (@M Response World).


Lemma Golog_CheckErr_flag_set (st : State) lg e msg :
  logger st = Some lg ->
  Golog.CheckErr (Some e) msg true st
  = if Development (config (sugaredLogger lg))
    then (Panicked (LogPanic (Sprintf "%s: %v" [VString msg; VError e])),
          upd st (written (sugaredLogger lg)
                    [mkEntry DPanicLevel (Sprintf "%s: %v" [VString msg; VError e]) []])
              (world st) (heap st))
    else (Returned true,
          upd st (written (sugaredLogger lg)
                    [mkEntry DPanicLevel (Sprintf "%s: %v" [VString msg; VError e]) [];
                     mkEntry ErrorLevel (Sprintf "%s: %v" [VString msg; VError e]) []])
              (world st) (heap st)).
Proof.
  intros Hlg. unfold Golog.CheckErr.
  rewrite (get_sugared_bind _ _ st lg Hlg). unfold Sugared.DPanicf.
  pose proof (log_dpanic lg (Sprintf "%s: %v" [VString msg; VError e])
                ([] : list value) st Hlg) as Hd.
  destruct (Development (config (sugaredLogger lg))).
  - now rewrite (bind_panicked _ _ _ _ _ Hd).
  - rewrite (bind_returned _ _ _ _ _ Hd).
    rewrite (get_sugared _ (upd st _ (world st) (heap st)) lg Hlg). unfold Sugared.Errorf.
    rewrite (bind_log_plain _ ErrorLevel) by log_side.
    unfold ret. rewrite world_upd, heap_upd, upd_upd.
    now rewrite <- written_app.
Qed.

Lemma written_one sl (x : Entry) :
  Enabled (Level_ (config sl)) (entry_level x) = true -> written sl [x] = [x].
Proof. intros E. unfold written. simpl. now rewrite E. Qed.

Lemma written_none sl (x : Entry) :
  Enabled (Level_ (config sl)) (entry_level x) = false -> written sl [x] = [].
Proof. intros E. unfold written. simpl. now rewrite E. Qed.


(** The warnings are all there when warning level is let through. *)
Lemma warnings_written sl (errs : list GoError) e :
  Enabled (Level_ (config sl)) WarnLevel = true ->
  In e errs -> In (@warn_entry Response e) (written sl (warn_entry <$> errs)).
Proof.
  intros En Hin. rewrite written_all.
  - apply in_map_iff. now exists e.
  - apply Forall_forall. intros x Hx. apply list_elem_of_In in Hx.
    apply in_map_iff in Hx as (e0 & <- & _). exact En.
Qed.

End GologFacts.

(** ** What zap's core makes of the calls *)

Section ZapFacts.
Context {Response World : Type} `{!Externals Response World}.
Abbreviation value := (value Response).
Abbreviation Entry := (Entry Response).
Abbreviation Written := (Written Response).
Abbreviation State := (State Response World).
Abbreviation M := (@M Response World).

(** The core only adds to what has been written. *)
Lemma base_Error_prefix c msg fs (recs : list Written) counted :
  Sugared.base_Error c msg fs (recs, counted)
  = (recs ++ fst (Sugared.base_Error c msg fs ([], counted)),
     snd (Sugared.base_Error c msg fs ([], counted))).
Proof.
  unfold Sugared.base_Error. cbn [fst snd].
  destruct (Enabled (Level_ c) ErrorLevel);
    [destruct (Sugared.sampler_admits c counted ErrorLevel msg) |];
    cbn [fst snd app]; now rewrite ?app_nil_r.
Qed.

Lemma complaints_prefix c (cs : list (string * list (string * value)))
    (recs : list Written) counted :
  fold_left (fun z m => Sugared.base_Error c (fst m) (snd m) z) cs (recs, counted)
  = (recs ++ fst (fold_left (fun z m => Sugared.base_Error c (fst m) (snd m) z) cs ([], counted)),
     snd (fold_left (fun z m => Sugared.base_Error c (fst m) (snd m) z) cs ([], counted))).
Proof.
  revert recs counted. induction cs as [| m cs IH]; intros recs counted; cbn [fold_left fst snd].
  - now rewrite app_nil_r.
  - rewrite base_Error_prefix.
    destruct (Sugared.base_Error c (fst m) (snd m) ([], counted)) as [r1 c1] eqn:E.
    cbn [fst snd]. rewrite IH. rewrite (IH r1 c1). cbn [fst snd]. now rewrite app_assoc.
Qed.

Lemma core_prefix sl (e : Entry) (recs : list Written) counted :
  Sugared.core sl e (recs, counted)
  = (recs ++ fst (Sugared.core sl e ([], counted)), snd (Sugared.core sl e ([], counted))).
Proof.
  unfold Sugared.core. cbn [fst snd].
  destruct (Sugared.sampler_admits (config sl) counted (entry_level e) (entry_msg e)) eqn:Ea;
    cbn [orb]; [| destruct (Sugared.terminal (config sl) (entry_level e))];
    try (cbn [fst snd]; now rewrite app_nil_r);
    destruct (Sugared.sweetenFields (entry_args e)) as [fields complaints];
    rewrite complaints_prefix; cbn [fst snd]; now rewrite ?app_assoc.
Qed.

Lemma core_all_prefix sl (es : list Entry) (recs : list Written) counted :
  core_all sl es (recs, counted)
  = (recs ++ fst (core_all sl es ([], counted)), snd (core_all sl es ([], counted))).
Proof.
  revert recs counted. induction es as [| e es IH]; intros recs counted.
  - cbn. now rewrite app_nil_r.
  - change (core_all sl (e :: es) ?z) with (core_all sl es (Sugared.core sl e z)).
    rewrite core_prefix.
    destruct (Sugared.core sl e ([], counted)) as [r1 c1] eqn:E.
    cbn [fst snd]. rewrite IH. rewrite (IH r1 c1). cbn [fst snd]. now rewrite app_assoc.
Qed.

(** What a run of calls adds to the records, and what the sampler has
    counted after it. *)
Lemma appended_upd (st : State) lg es w h :
  logger st = Some lg ->
  appended st (upd st es w h) = fst (core_all (sugaredLogger lg) es ([], sampled st)).
Proof.
  intros Hlg. unfold appended, upd. rewrite Hlg. cbn [records fst].
  rewrite core_all_prefix. cbn [fst]. apply drop_app_length.
Qed.

Lemma sampled_upd (st : State) lg es w h :
  logger st = Some lg ->
  sampled (upd st es w h) = snd (core_all (sugaredLogger lg) es ([], sampled st)).
Proof.
  intros Hlg. unfold upd. rewrite Hlg. cbn [sampled snd].
  now rewrite core_all_prefix.
Qed.

Lemma appended_same (st : State) : appended st st = [].
Proof. unfold appended. apply drop_all. Qed.

(** A call zap has no complaint about leaves its record, if the sampler
    admits it, and nothing else. *)
Lemma core_well_formed sl (e : Entry) counted :
  well_formed e ->
  Sugared.core sl e ([], counted)
  = ((if Sugared.sampler_admits (config sl) counted (entry_level e) (entry_msg e)
      then [written_of e] else []),
     Sugared.sampler_counts (config sl) counted (entry_level e) (entry_msg e)).
Proof.
  unfold well_formed, written_of, Sugared.core. cbn [fst snd]. intros Hwf.
  destruct (Sugared.sweetenFields (entry_args e)) as [fields complaints].
  cbn [fst snd] in *. subst complaints. cbn [fold_left fst snd app].
  destruct (Sugared.sampler_admits (config sl) counted (entry_level e) (entry_msg e));
    cbn [orb]; [reflexivity |].
  now destruct (Sugared.terminal (config sl) (entry_level e)).
Qed.

Lemma core_all_well_formed sl (es : list Entry) counted :
  Forall well_formed es ->
  core_all sl es ([], counted)
  = (sampled_through (config sl) counted es, counted_after (config sl) counted es).
Proof.
  intros Hwf. revert counted. induction Hwf as [| e es He _ IH]; intros counted; [reflexivity |].
  change (core_all sl (e :: es) ?z) with (core_all sl es (Sugared.core sl e z)).
  rewrite (core_well_formed sl e counted He), core_all_prefix, IH. reflexivity.
Qed.


(** Without a sampler every call leaves its record. *)
Lemma sampled_through_all c counted (es : list Entry) :
  Sampling c = None -> sampled_through c counted es = written_of <$> es.
Proof.
  intros Hs. revert counted. induction es as [| e es IH]; intros counted; [reflexivity |].
  cbn [sampled_through fmap list_fmap]. rewrite IH.
  unfold Sugared.sampler_admits. now rewrite Hs.
Qed.

Lemma sampler_admits_all c counted l msg :
  Sampling c = None -> Sugared.sampler_admits c counted l msg = true.
Proof. intros Hs. unfold Sugared.sampler_admits. now rewrite Hs. Qed.



(** *** The fields of well-formed arguments *)

Lemma sweeten_string_keys (kv : list value) i seen :
  string_keys kv = true -> Nat.even (length kv) = true ->
  Sugared.sweeten i seen kv = (pair_up kv, [], []).
Proof.
  revert i. induction kv as [| | key val rest IH] using pair_ind; intros i Hk Hev.
  - reflexivity.
  - discriminate.
  - destruct key; try discriminate. cbn [string_keys] in Hk.
    change (Nat.even (length (VString s :: val :: rest))) with (Nat.even (length rest)) in Hev.
    cbn [Sugared.sweeten pair_up]. now rewrite (IH _ Hk Hev).
Qed.

Lemma sweetenFields_error_first e (kv : list value) :
  string_keys kv = true -> Nat.even (length kv) = true ->
  Sugared.sweetenFields (VString "error" :: VError e :: kv)
  = (("error", VError e) :: pair_up kv, []).
Proof.
  intros Hk Hev. unfold Sugared.sweetenFields. cbn [Sugared.sweeten].
  now rewrite (sweeten_string_keys kv _ _ Hk Hev).
Qed.

Lemma warn_entry_well_formed (e : GoError) : well_formed (@warn_entry Response e).
Proof. reflexivity. Qed.

Lemma string_keys_pad (kv : list value) : string_keys kv = true -> string_keys (pad kv) = true.
Proof.
  unfold pad. induction kv as [| key | key val rest IH] using pair_ind; intros Hk.
  - reflexivity.
  - destruct key; try discriminate. reflexivity.
  - destruct key; try discriminate. cbn [string_keys] in Hk.
    change (Nat.even (length (VString s :: val :: rest))) with (Nat.even (length rest)).
    specialize (IH Hk). destruct (Nat.even (length rest)); assumption.
Qed.

(** The dumps change no key. *)
Lemma dump_pairs_string_keys on_fail (kv : list value) w :
  string_keys (fst (fst (dump_pairs on_fail kv w))) = string_keys kv.
Proof.
  revert w. induction kv as [| key | key val rest IH] using pair_ind; intros w;
    [reflexivity | reflexivity |].
  assert (Hstep : forall (v' : value) l, string_keys (key :: v' :: l)
                                         = match key with VString _ => string_keys l | _ => false end).
  { intros v' l. now destruct key. }
  rewrite (Hstep val rest).
  destruct val as [| str | z | e | r | l]; cbn [dump_pairs];
    try (specialize (IH w);
         destruct (dump_pairs on_fail rest w) as [[f1 e1] w1]; cbn [fst] in *;
         rewrite Hstep, IH; reflexivity).
  destruct (DumpResponse r w) as [[dump | dumpErr] w1];
    specialize (IH w1); destruct (dump_pairs on_fail rest w1) as [[f1 e1] w2];
    cbn [fst] in *; rewrite Hstep, IH; reflexivity.
Qed.

(** *** The dumps, position by position *)











(** *** The records of a run of [CheckErr] *)

Lemma main_entry_fields l msg e (fields : list value) :
  string_keys fields = true -> Nat.even (length fields) = true ->
  well_formed (mkEntry l msg (VString "error" :: VError e :: fields)) /\
  written_of (mkEntry l msg (VString "error" :: VError e :: fields))
  = mkWritten l msg (("error", VError e) :: pair_up fields).
Proof.
  intros Hk Hev. unfold well_formed, written_of. cbn [entry_args entry_level entry_msg].
  rewrite (sweetenFields_error_first e fields Hk Hev). now split.
Qed.

Lemma Forall_written (P : Entry -> Prop) sl (es : list Entry) :
  Forall P es -> Forall P (written sl es).
Proof.
  induction 1 as [| x es Hx _ IH]; [constructor |].
  unfold written in *. cbn [List.filter]. destruct (Enabled _ _); [constructor |]; assumption.
Qed.

Lemma warn_entries_well_formed (errs : list GoError) :
  Forall well_formed (@warn_entry Response <$> errs).
Proof. induction errs; constructor; [apply warn_entry_well_formed | assumption]. Qed.


(** What a run that made the warnings for [errs] and the call [x] added
    to the records. *)
Lemma run_records (st : State) lg (errs : list GoError) (x : Entry) w h :
  logger st = Some lg ->
  well_formed x ->
  appended st (upd st (written (sugaredLogger lg) ((warn_entry <$> errs) ++ [x])) w h)
  = sampled_through (config (sugaredLogger lg)) (sampled st)
      (written (sugaredLogger lg) ((warn_entry <$> errs) ++ [x])).
Proof.
  intros Hlg Hx. rewrite (appended_upd st lg _ w h Hlg).
  rewrite core_all_well_formed; [reflexivity |].
  apply Forall_written, Forall_app. split; [apply warn_entries_well_formed |].
  now constructor.
Qed.



(** *** One leveled call *)

Lemma log_snd lg l msg (args : list value) (st : State) :
  logger st = Some lg ->
  snd (Sugared.log (sugaredLogger lg) l msg args st)
  = upd st (written (sugaredLogger lg) [mkEntry l msg args]) (world st) (heap st).
Proof.
  intros Hlg. unfold Sugared.log, bind. rewrite (log_run lg l msg args st Hlg).
  destruct l; try reflexivity. now destruct (Development (config (sugaredLogger lg))).
Qed.

Lemma complaints_level c (cs : list (string * list (string * value))) counted :
  Forall (fun r : Written => w_level r = ErrorLevel)
    (fst (fold_left (fun z m => Sugared.base_Error c (fst m) (snd m) z) cs ([], counted))).
Proof.
  revert counted. induction cs as [| m cs IH]; intros counted; [constructor |].
  cbn [fold_left]. 
  destruct (Sugared.base_Error c (fst m) (snd m) ([], counted)) as [r1 c1] eqn:E.
  rewrite complaints_prefix. cbn [fst]. apply Forall_app. split; [| apply IH].
  unfold Sugared.base_Error in E. cbn [fst snd] in E.
  destruct (Enabled (Level_ c) ErrorLevel);
    [destruct (Sugared.sampler_admits c counted ErrorLevel (fst m)) |];
    injection E as <- _; repeat constructor.
Qed.

(** The record of a call is written exactly when the sampler admits it. *)
Lemma core_seen sl (e : Entry) counted :
  In (written_of e) (fst (Sugared.core sl e ([], counted)))
  <-> Sugared.sampler_admits (config sl) counted (entry_level e) (entry_msg e) = true.
Proof.
  unfold Sugared.core, written_of. cbn [fst snd].
  destruct (Sugared.sweetenFields (entry_args e)) as [fields complaints]. cbn [fst].
  destruct (Sugared.sampler_admits (config sl) counted (entry_level e) (entry_msg e)) eqn:Ea;
    cbn [orb].
  - cbn [fst]. split; [reflexivity |]. intros _. apply in_or_app. right. now left.
  - split; [| discriminate]. intros Hin. exfalso.
    destruct (Sugared.terminal (config sl) (entry_level e)) eqn:Ht; cbn [fst] in Hin;
      [| destruct Hin].
    pose proof (complaints_level (config sl) complaints
                  (Sugared.sampler_counts (config sl) counted (entry_level e) (entry_msg e)))
      as Hall.
    rewrite Forall_forall in Hall. apply list_elem_of_In in Hin.
    specialize (Hall _ Hin). cbn [w_level] in Hall. rewrite Hall in Ht. discriminate.
Qed.

Lemma log_seen lg l msg (args : list value) (st : State) :
  logger st = Some lg ->
  Enabled (Level_ (config (sugaredLogger lg))) l = true ->
  In (written_of (mkEntry l msg args))
     (appended st (snd (Sugared.log (sugaredLogger lg) l msg args st)))
  <-> Sugared.sampler_admits (config (sugaredLogger lg)) (sampled st) l msg = true.
Proof.
  intros Hlg En. rewrite (log_snd lg l msg args st Hlg).
  rewrite (appended_upd st lg _ _ _ Hlg), (written_one _ (mkEntry l msg args)) by exact En.
  apply (core_seen (sugaredLogger lg) (mkEntry l msg args)).
Qed.

Lemma log_unseen lg l msg (args : list value) (st : State) :
  logger st = Some lg ->
  Enabled (Level_ (config (sugaredLogger lg))) l = false ->
  appended st (snd (Sugared.log (sugaredLogger lg) l msg args st)) = [].
Proof.
  intros Hlg En. rewrite (log_snd lg l msg args st Hlg).
  rewrite (written_none _ (mkEntry l msg args)) by exact En.
  rewrite upd_id. apply appended_same.
Qed.

(** What the records of any well-formed calls are. *)
Lemma upd_records (st : State) lg (es : list Entry) w h :
  logger st = Some lg ->
  Forall well_formed es ->
  appended st (upd st es w h)
  = sampled_through (config (sugaredLogger lg)) (sampled st) es.
Proof.
  intros Hlg Hwf. rewrite (appended_upd st lg _ w h Hlg).
  now rewrite core_all_well_formed.
Qed.

(** The call [CheckErr] makes for the message, on a context with string
    keys: zap has no complaint, and makes the fields pair by pair. *)
Lemma call_fields on_fail l msg e (kv : list value) w fields errs w' :
  dump_pairs on_fail (pad kv) w = (fields, errs, w') ->
  string_keys kv = true ->
  well_formed (mkEntry l msg (VString "error" :: VError e :: fields)) /\
  written_of (mkEntry l msg (VString "error" :: VError e :: fields))
  = mkWritten l msg (("error", VError e) :: pair_up fields).
Proof.
  intros Hdp Hk. apply main_entry_fields.
  - pose proof (dump_pairs_string_keys on_fail (pad kv) w) as H0. rewrite Hdp in H0.
    cbn [fst] in H0. rewrite H0. now apply string_keys_pad.
  - rewrite (dump_pairs_length _ _ _ _ _ _ Hdp). apply pad_even.
Qed.

(** The same for a logger [NewLogger] built: in development mode there is
    no sampler, in production mode it is the one with 100 and 100. *)
Lemma sampler_admits_config_of d counted l m :
  Sugared.sampler_admits (config_of d) counted l m = true
  <-> d = true \/ Sampled 100 100 counted l m = true.
Proof.
  unfold Sugared.sampler_admits. destruct d; cbn [config_of Sampling]; [tauto |].
  split; [now right | now intros [? | ?]].
Qed.

Lemma log_seen_config_of lg d l m (args : list value) (st : State) :
  logger st = Some lg ->
  config (sugaredLogger lg) = config_of d ->
  (0 <= level_num l)%Z ->
  In (written_of (mkEntry l m args))
     (appended st (snd (Sugared.log (sugaredLogger lg) l m args st)))
  <-> d = true \/ Sampled 100 100 (sampled st) l m = true.
Proof.
  intros Hlg Hc Hl. rewrite <- sampler_admits_config_of, <- Hc. apply log_seen; [exact Hlg |].
  rewrite Hc. unfold Enabled. apply Z.leb_le. destruct d; cbn [config_of Level_]; simpl; lia.
Qed.

Lemma log_debug_config_of lg d m (args : list value) (st : State) :
  logger st = Some lg ->
  config (sugaredLogger lg) = config_of d ->
  (In (written_of (mkEntry DebugLevel m args))
      (appended st (snd (Sugared.log (sugaredLogger lg) DebugLevel m args st)))
   <-> d = true) /\
  (d = false -> appended st (snd (Sugared.log (sugaredLogger lg) DebugLevel m args st)) = []).
Proof.
  intros Hlg Hc. destruct d.
  - split; [| discriminate]. rewrite log_seen; [| exact Hlg | now rewrite Hc].
    rewrite Hc. now rewrite sampler_admits_config_of; tauto.
  - assert (Hno : appended st (snd (Sugared.log (sugaredLogger lg) DebugLevel m args st)) = []).
    { apply log_unseen; [exact Hlg | now rewrite Hc]. }
    split; [| now intros _]. rewrite Hno. split; [intros [] | discriminate].
Qed.

(** What zap makes of the one slice [CheckErr] of log.go hands over at
    error level: its complaint about a key without a value, and the record
    of the message without a field. *)
Lemma core_one_slice sl msg (xs : list value) counted :
  Enabled (Level_ (config sl)) ErrorLevel = true ->
  fst (Sugared.core sl (mkEntry ErrorLevel msg [VSlice xs]) ([], counted))
  = if Sugared.sampler_admits (config sl) counted ErrorLevel msg
    then (if Sugared.sampler_admits (config sl)
               (Sugared.sampler_counts (config sl) counted ErrorLevel msg)
               ErrorLevel "Ignored key without a value."
          then [mkWritten ErrorLevel "Ignored key without a value." [("ignored", VSlice xs)]]
          else []) ++ [mkWritten ErrorLevel msg []]
    else [].
Proof.
  intros En. unfold Sugared.core.
  cbn [entry_level entry_msg entry_args fst snd Sugared.terminal Sugared.sweetenFields
       Sugared.sweeten app fold_left].
  destruct (Sugared.sampler_admits (config sl) counted ErrorLevel msg); cbn [orb fst snd];
    [| reflexivity].
  unfold Sugared.base_Error. rewrite En. cbn [fst snd].
  now destruct (Sugared.sampler_admits (config sl) _ ErrorLevel "Ignored key without a value.").
Qed.

(** The same at panic level, where the complaint is logged whether or not
    the sampler admits the record of the message. *)
Lemma core_one_slice_panic sl msg (xs : list value) counted :
  Enabled (Level_ (config sl)) ErrorLevel = true ->
  fst (Sugared.core sl (mkEntry PanicLevel msg [VSlice xs]) ([], counted))
  = (if Sugared.sampler_admits (config sl)
          (Sugared.sampler_counts (config sl) counted PanicLevel msg)
          ErrorLevel "Ignored key without a value."
     then [mkWritten ErrorLevel "Ignored key without a value." [("ignored", VSlice xs)]]
     else []) ++
    (if Sugared.sampler_admits (config sl) counted PanicLevel msg
     then [mkWritten PanicLevel msg []] else []).
Proof.
  intros En. unfold Sugared.core.
  cbn [entry_level entry_msg entry_args fst snd Sugared.terminal Sugared.sweetenFields
       Sugared.sweeten app fold_left].
  rewrite orb_true_r. unfold Sugared.base_Error. rewrite En. cbn [fst snd].
  destruct (Sugared.sampler_admits (config sl) counted PanicLevel msg);
    destruct (Sugared.sampler_admits (config sl) _ ErrorLevel "Ignored key without a value.");
    cbn [fst app]; now rewrite ?app_nil_r.
Qed.

End ZapFacts.

(** * The statements of the specification *)

Section Specification.
Context {Response World : Type} `{!Externals Response World}.
Abbreviation value := (value Response).
Abbreviation Entry := (Entry Response).
Abbreviation State := (State Response World).
Abbreviation M := (@M Response World).

(** C2.  On a nil error every [CheckErr] returns false at once and leaves
    the whole state as it was: no entry is written, the store, the world
    and the package variables are untouched, whatever the termination
    flag, the message and the context are. *)
Theorem CheckErr_nil_returns_false_without_effect :
  forall (st : State) (flag : bool) (msg : string),
    Golog.CheckErr None msg flag st = (Returned false, st) /\
    (forall fuel (kv : list value), Log.CheckErr fuel None flag msg kv st = (Returned false, st)) /\
    (forall s, LogPairs.CheckErr None flag msg s st = (Returned false, st)) /\
    (forall s, LogInPlace.CheckErr None flag msg s st = (Returned false, st)).
Proof.
  intros st flag msg. split; [reflexivity |]. split; [| split; reflexivity].
  intros fuel kv. apply Log_CheckErr_nil.
Qed.

(** C7, as amended.  A logger that [NewLogger] returns has, for the
    development flag, the debug threshold, the console encoding and no
    sampler, and for the production flag the info threshold, the JSON
    encoding and zap's sampler with 100 and 100.  With it in place the
    record of a debug call is written in development mode, and in
    production mode a debug call leaves nothing; the record of an info,
    warn, error, panic or fatal call is written in development mode, and
    in production mode exactly when the sampler admits it.  A printf form
    has the message zap makes of template and arguments. *)
Theorem NewLogger_threshold_and_encoding :
  forall (d : bool) (st0 st1 : State) (lg : Logger),
    NewLogger d st0 = (Returned (Some lg, None), st1) ->
    Level_ (config (sugaredLogger lg)) = (if d then DebugLevel else InfoLevel) /\
    Encoding (config (sugaredLogger lg)) = (if d then "console" else "json") /\
    Sampling (config (sugaredLogger lg)) = (if d then None else Some (100, 100)) /\
    forall (st : State) msg (kv : list value),
      logger st = Some lg ->
      let seen (call : M unit) l m (args : list value) :=
        In (written_of (mkEntry l m args)) (appended st (snd (call st))) in
      let admits l m := d = true \/ Sampled 100 100 (sampled st) l m = true in
      let text := Sugared.getMessage msg kv in
      (seen (Debug msg kv) DebugLevel msg kv <-> d = true) /\
      (seen (Debugf msg kv) DebugLevel text [] <-> d = true) /\
      (d = false ->
       appended st (snd (Debug msg kv st)) = [] /\
       appended st (snd (Debugf msg kv st)) = []) /\
      (seen (Info msg kv) InfoLevel msg kv <-> admits InfoLevel msg) /\
      (seen (Infof msg kv) InfoLevel text [] <-> admits InfoLevel text) /\
      (seen (Warn msg kv) WarnLevel msg kv <-> admits WarnLevel msg) /\
      (seen (Warnf msg kv) WarnLevel text [] <-> admits WarnLevel text) /\
      (seen (Error msg kv) ErrorLevel msg kv <-> admits ErrorLevel msg) /\
      (seen (Errorf msg kv) ErrorLevel text [] <-> admits ErrorLevel text) /\
      (seen (Panic msg kv) PanicLevel msg kv <-> admits PanicLevel msg) /\
      (seen (Panicf msg kv) PanicLevel text [] <-> admits PanicLevel text) /\
      (seen (Fatal msg kv) FatalLevel msg kv <-> admits FatalLevel msg) /\
      (seen (Fatalf msg kv) FatalLevel text [] <-> admits FatalLevel text).
Proof.
  intros d st0 st1 lg Hnew. pose proof (NewLogger_config _ _ _ _ Hnew) as Hc.
  split; [rewrite Hc; now destruct d |]. split; [rewrite Hc; now destruct d |].
  split; [rewrite Hc; now destruct d |].
  intros st msg kv Hlg. cbv zeta.
  pose proof (fun l m args => log_seen_config_of lg d l m args st Hlg Hc) as Hseen.
  pose proof (fun m args => log_debug_config_of lg d m args st Hlg Hc) as Hdebug.
  unfold Debug, Debugf, Info, Infof, Warn, Warnf, Error, Errorf, Panic, Panicf, Fatal, Fatalf.
  rewrite !(get_sugared _ st lg Hlg).
  unfold Sugared.Debugw, Sugared.Debugf, Sugared.Infow, Sugared.Infof, Sugared.Warnw,
    Sugared.Warnf, Sugared.Errorw, Sugared.Errorf, Sugared.Panicw, Sugared.Panicf,
    Sugared.Fatalw, Sugared.Fatalf.
  split; [apply Hdebug |]. split; [apply Hdebug |]. split.
  { intros Hd. split; now apply Hdebug. }
  repeat split; try (apply Hseen; simpl; lia); try (apply Hseen; simpl; lia).
Qed.

(** C8.  Once a call of [InitLogger] has returned, the guard is set; from
    then on every call of [InitLogger], with whatever flag, returns with
    the state exactly as it found it, so no logger is built and the handle
    is the same, no other call of the package changes the guard or the
    handle, and [GetLogger] returns that handle.  When the call that
    returned was the first, the handle is the logger [NewLogger] built for
    its flag. *)
Theorem InitLogger_builds_at_most_once :
  forall (d : bool) (st st1 : State),
    InitLogger d st = (Returned tt, st1) ->
    once_done st1 = true /\
    (forall d' (st2 : State),
        once_done st2 = true -> InitLogger d' st2 = (Returned tt, st2)) /\
    (forall d', InitLogger d' st1 = (Returned tt, st1)) /\
    (forall (m : M unit) (st2 : State),
        api m -> once_done st2 = true ->
        once_done (snd (m st2)) = true /\ logger (snd (m st2)) = logger st2) /\
    GetLogger st1 = (Returned (logger st1), st1) /\
    (once_done st = false ->
     exists lg st0,
       NewLogger d st = (Returned (Some lg, None), st0) /\
       logger st1 = Some lg /\ next_handle st1 = S (next_handle st)).
Proof.
  intros d st st1 Hinit.
  assert (Hdone : once_done st1 = true).
  { destruct (once_done st) eqn:E.
    - rewrite InitLogger_done in Hinit by assumption. now injection Hinit as <-.
    - rewrite InitLogger_first in Hinit by assumption.
      destruct (Build _ _) as [[e|] w]; [discriminate |]. now injection Hinit as <-. }
  split; [assumption |]. split; [intros; now apply InitLogger_done |].
  split; [intros; now apply InitLogger_done |].
  split; [intros; now apply api_after_init |]. split; [reflexivity |].
  intros E. rewrite InitLogger_first in Hinit by assumption. rewrite NewLogger_eq.
  destruct (Build _ _) as [[e|] w]; [discriminate |]. injection Hinit as <-.
  eexists _, _. split; [reflexivity |]. now split.
Qed.

(** C9.  In a state the package can be in while [InitLogger] has not run,
    [GetLogger] returns nil, and each of the twelve logging functions, and
    [CheckErr] of golog.go and of part_000 on a non-nil error, ends in the
    panic of a nil pointer dereference. *)
Theorem calls_before_InitLogger_panic :
  forall (st : State),
    reachable st -> once_done st = false ->
    GetLogger st = (Returned None, st) /\
    (forall msg (kv : list value),
        fst (Info msg kv st) = Panicked NilDereference /\
        fst (Debug msg kv st) = Panicked NilDereference /\
        fst (Warn msg kv st) = Panicked NilDereference /\
        fst (Error msg kv st) = Panicked NilDereference /\
        fst (Fatal msg kv st) = Panicked NilDereference /\
        fst (Panic msg kv st) = Panicked NilDereference /\
        fst (Debugf msg kv st) = Panicked NilDereference /\
        fst (Infof msg kv st) = Panicked NilDereference /\
        fst (Warnf msg kv st) = Panicked NilDereference /\
        fst (Errorf msg kv st) = Panicked NilDereference /\
        fst (Fatalf msg kv st) = Panicked NilDereference /\
        fst (Panicf msg kv st) = Panicked NilDereference) /\
    (forall e msg flag,
        fst (Golog.CheckErr (Some e) msg flag st) = Panicked NilDereference) /\
    (forall e flag msg s,
        valid_slice (heap st) s ->
        fst (LogInPlace.CheckErr (Some e) flag msg s st) = Panicked NilDereference).
Proof.
  intros st Hr Hd. pose proof (reachable_no_logger st Hr Hd) as Hlg.
  split; [unfold GetLogger, gets; now rewrite Hlg |]. split; [| split].
  - intros msg kv.
    unfold Info, Debug, Warn, Error, Fatal, Panic, Debugf, Infof, Warnf, Errorf, Fatalf, Panicf.
    rewrite !(get_sugared_nil _ st Hlg). repeat split; reflexivity.
  - intros e msg flag. unfold Golog.CheckErr. destruct flag.
    + now rewrite (get_sugared_nil_bind _ _ st Hlg).
    + rewrite bind_ret_l. now rewrite (get_sugared_nil _ st Hlg).
  - intros e flag msg s Hv.
    destruct (LogInPlace_CheckErr_no_logger st e flag msg s Hv Hlg) as (st' & ->).
    reflexivity.
Qed.






(** What C6 asks for, as part_000 and the package-log text of golog_test.go
    do it: the arguments of the entry are "error", the error and the
    fields of the context, an even number in all, and a context of odd
    length has got the placeholder as its last value. *)
Lemma CheckErr_spread_pads_context (st : State) lg e msg s :
  logger st = Some lg ->
  Enabled (Level_ (config (sugaredLogger lg))) ErrorLevel = true ->
  valid_slice (heap st) s ->
  (exists fields,
     In (mkEntry ErrorLevel msg (VString "error" :: VError e :: fields))
        (emitted st (snd (LogInPlace.CheckErr (Some e) false msg s st))) /\
     Nat.even (length (VString "error" :: VError e :: fields)) = true /\
     length fields = length (pad (read_slice (heap st) s)) /\
     (Nat.even (s_len s) = false -> last fields = Some placeholder)) /\
  (exists fields,
     In (mkEntry ErrorLevel msg (VString "error" :: VError e :: fields))
        (emitted st (snd (LogPairs.CheckErr (Some e) false msg s st))) /\
     Nat.even (length (VString "error" :: VError e :: fields)) = true /\
     length fields = length (pad (read_slice (heap st) s)) /\
     (Nat.even (s_len s) = false -> last fields = Some placeholder)).
Proof.
  intros Hlg En Hv.
  destruct (valid_slice_window _ _ Hv) as (_ & _ & _ & _ & Hw & _).
  assert (Hgen : forall on_fail fields errs w',
    dump_pairs on_fail (pad (read_slice (heap st) s)) (world st) = (fields, errs, w') ->
    Nat.even (length (VString "error" :: VError e :: fields)) = true /\
    length fields = length (pad (read_slice (heap st) s)) /\
    (Nat.even (s_len s) = false -> last fields = Some placeholder)).
  { intros on_fail fields errs w' Hdp.
    pose proof (dump_pairs_length _ _ _ _ _ _ Hdp) as Hlen.
    split; [| split; [exact Hlen |]].
    - cbn [length]. change (Nat.even (S (S ?n))) with (Nat.even n).
      rewrite Hlen. apply pad_even.
    - intros Hodd. unfold pad in Hdp. rewrite Hw, Hodd in Hdp.
      destruct (dump_pairs on_fail (read_slice (heap st) s) (world st))
        as [[f0 e0] w0] eqn:Hdp0.
      rewrite (dump_pairs_odd _ _ _ _ _ _ ltac:(now rewrite Hw) Hdp0) in Hdp.
      injection Hdp as <- _ _. apply last_snoc. }
  split.
  - destruct (dump_pairs keep_response (pad (read_slice (heap st) s)) (world st))
      as [[fields errs] w'] eqn:Hdp.
    destruct (LogInPlace_CheckErr_spec st e false msg s lg fields errs w' Hv Hlg Hdp)
      as (h' & -> & _).
    exists fields. cbn [snd]. rewrite emitted_upd, written_app.
    split; [| exact (Hgen _ _ _ _ Hdp)].
    apply in_or_app. right. rewrite (written_one _ (mkEntry _ _ _)) by exact En. now left.
  - destruct (dump_pairs failure_text (pad (read_slice (heap st) s)) (world st))
      as [[fields errs] w'] eqn:Hdp.
    destruct (LogPairs_CheckErr_spec st e false msg s lg fields errs w' Hv Hlg Hdp)
      as (h' & -> & _).
    exists fields. cbn [snd]. rewrite emitted_upd, written_app.
    split; [| exact (Hgen _ _ _ _ Hdp)].
    apply in_or_app. right. rewrite (written_one _ (mkEntry _ _ _)) by exact En. now left.
Qed.

End Specification.

(** * Concrete runs *)

(** C6: [CheckErr] of log.go on an odd context.  The slice it builds is
    padded and even, but it is handed to [Errorw] as one argument, so the
    entry has a single, dangling argument and not an even sequence of keys
    and values. *)
Theorem log_go_hands_the_slice_over_unspread :
  let st := Sample.ready [] in
  let r := Log.CheckErr 1 (Some Sample.e1) false "request failed"
             [VString "resp"; VResponse Sample.Healthy; VString "k"] st in
  fst r = Returned true /\
  emitted st (snd r)
  = [mkEntry ErrorLevel "request failed"
       [VSlice [VString "error"; VError Sample.e1;
                VString "resp"; VString "HTTP/1.1 500 Internal Server Error";
                VString "k"; VString "<missing value>"]]] /\
  Forall (fun x => length (entry_args x) = 1 /\ Nat.even (length (entry_args x)) = false)
         (emitted st (snd r)).
Proof.
  cbv zeta. split; [reflexivity |]. split; [reflexivity |].
  vm_compute. repeat constructor.
Qed.


(** In log.go a dump that fails once makes one call call twice at error
    level. *)
Lemma log_go_failed_dump_two_error_entries :
  let st := Sample.ready [] in
  let r := Log.CheckErr 2 (Some Sample.e1) false "request failed"
             [VString "resp"; VResponse Sample.Flaky] st in
  fst r = Returned true /\
  records_at ErrorLevel (emitted st (snd r))
  = [mkEntry ErrorLevel "can't dump HTTP response"
       [VSlice [VString "error"; VError (mkError "unexpected EOF");
                VString "response"; VString "HTTP/1.1 200 OK"]];
     mkEntry ErrorLevel "request failed"
       [VSlice [VString "error"; VError Sample.e1; VString "resp";
                VString "Error dumping response: unexpected EOF"]]] /\
  ~ (exists x, records_at ErrorLevel (emitted st (snd r)) = [x]).
Proof.
  cbv zeta. split; [reflexivity |]. split; [reflexivity |].
  intros [x Hx]. vm_compute in Hx. discriminate Hx.
Qed.




(** In log.go the failure is passed on at error level by the nested call;
    there is no call at warning level. *)
Lemma log_go_failed_dump_no_warning :
  let st := Sample.ready [] in
  let r := Log.CheckErr 2 (Some Sample.e1) false "request failed"
             [VString "resp"; VResponse Sample.Flaky] st in
  fst r = Returned true /\ records_at WarnLevel (emitted st (snd r)) = [].
Proof. cbv zeta. split; reflexivity. Qed.

(** In log.go a response whose body is closed for good never lets the call
    come back, whatever the budget. *)
Lemma log_go_closed_body_never_returns :
  forall fuel,
    fst (Log.CheckErr fuel (Some Sample.e1) false "request failed"
           [VString "resp"; VResponse Sample.Closed] (Sample.ready []))
    = StackExhausted.
Proof.
  intros fuel. apply Log_CheckErr_diverges.
  intros w. now exists (mkError "http: read on closed response body"), (S w).
Qed.

(** Against C7: the production logger, within one second.  A hundred info
    calls with one message have each left their record; the next leaves
    none, though info is above the threshold. *)
Lemma production_sampler_drops_the_next_info :
  let st := Nat.iter 100 (fun s => snd (Info "tick" [] s)) (Sample.ready_prod []) in
  let r := Info "tick" [] st in
  logger st = Some (mkLogger 0 (mkSugared (config_of false))) /\
  Enabled (Level_ (config_of false)) InfoLevel = true /\
  records st = replicate 100 (mkWritten InfoLevel "tick" []) /\
  fst r = Returned tt /\
  emitted st (snd r) = [mkEntry InfoLevel "tick" []] /\
  appended st (snd r) = [].
Proof. cbv zeta. vm_compute. repeat split; reflexivity. Qed.


(** The theorems at work on the sample. *)





Lemma NewLogger_threshold_and_encoding_witness :
  let st0 := initial (Response := Sample.resp) 0 [] in
  let lg := mkLogger 0 (mkSugared (config_of false)) in
  let st := Sample.ready_prod [] in
  NewLogger false st0 = (Returned (Some lg, None), mkState false None 1 [] 0 [] [] []) /\
  logger st = Some lg /\
  Level_ (config (sugaredLogger lg)) = InfoLevel /\
  Encoding (config (sugaredLogger lg)) = "json" /\
  Sampling (config (sugaredLogger lg)) = Some (100, 100) /\
  appended st (snd (Debug "tick" [] st)) = [].
Proof.
  cbv zeta. split; [reflexivity |]. split; [reflexivity |].
  pose proof (NewLogger_threshold_and_encoding false
                (initial (Response := Sample.resp) 0 [])
                (mkState false None 1 [] 0 [] [] [])
                (mkLogger 0 (mkSugared (config_of false))) eq_refl) as (H1 & H2 & H3 & H4).
  split; [exact H1 |]. split; [exact H2 |]. split; [exact H3 |].
  exact (proj1 (proj1 (proj2 (proj2 (H4 (Sample.ready_prod []) "tick" [] eq_refl))) eq_refl)).
Defined.

Lemma InitLogger_builds_at_most_once_witness :
  let st := initial (Response := Sample.resp) 0 [] in
  let st1 := mkState true (Some (mkLogger 0 (mkSugared (config_of true)))) 1 [] 0 [] [] [] in
  InitLogger true st = (Returned tt, st1) /\
  once_done st = false /\
  InitLogger false st1 = (Returned tt, st1) /\
  GetLogger st1 = (Returned (Some (mkLogger 0 (mkSugared (config_of true)))), st1).
Proof.
  cbv zeta. split; [reflexivity |]. split; [reflexivity |].
  pose proof (InitLogger_builds_at_most_once true
                (initial (Response := Sample.resp) 0 [])
                (mkState true (Some (mkLogger 0 (mkSugared (config_of true)))) 1 [] 0 [] [] [])
                eq_refl) as (_ & _ & H3 & _ & H4 & _).
  split; [apply H3 | apply H4].
Defined.

Lemma calls_before_InitLogger_panic_witness :
  let st := initial (Response := Sample.resp) 0 [] in
  reachable st /\ once_done st = false /\
  fst (Info "started" [] st) = Panicked NilDereference /\
  fst (Golog.CheckErr (Some Sample.e1) "request failed" false st) = Panicked NilDereference.
Proof.
  cbv zeta. split; [apply reach_initial |]. split; [reflexivity |].
  pose proof (calls_before_InitLogger_panic (initial (Response := Sample.resp) 0 [])
                (reach_initial 0 []) eq_refl) as (_ & H2 & H3 & _).
  split; [apply H2 | apply H3].
Defined.


(** * Further properties of the code *)

(** ** The guard, the installed logger and the forwarding functions *)

Section Installed.
Context {Response World : Type} `{!Externals Response World}.
Abbreviation value := (value Response).
Abbreviation Entry := (Entry Response).
Abbreviation State := (State Response World).
Abbreviation M := (@M Response World).

(** Once the guard is set, the guard and the handle stay as they are for
    the rest of the run. *)
Lemma reaches_after_guard (st st' : State) :
  reaches st st' -> once_done st = true ->
  once_done st' = true /\ logger st' = logger st.
Proof.
  induction 1 as [| st' w h Hr IH | st' m Hr IH Hm]; intros Hd.
  - now split.
  - destruct (IH Hd) as [H1 H2]. now split.
  - destruct (IH Hd) as [H1 H2].
    destruct (api_after_init m st' Hm H1) as [H3 H4]. split; congruence.
Qed.

Lemma reachable_reaches (st st' : State) :
  reachable st -> reaches st st' -> reachable st'.
Proof.
  intros Hr. induction 1 as [| st' w h _ IH | st' m _ IH Hm].
  - assumption.
  - now apply reach_client.
  - now apply reach_call.
Qed.

Lemma config_of_enabled d l :
  (0 <= level_num l)%Z -> Enabled (Level_ (config_of d)) l = true.
Proof. intros Hl. unfold Enabled. apply Z.leb_le. destruct d; simpl; lia. Qed.

(** A logger the package has installed was built by [NewLogger]. *)
Lemma reachable_logger_config (st : State) lg :
  reachable st -> logger st = Some lg ->
  exists d, config (sugaredLogger lg) = config_of d.
Proof.
  intros Hr. revert lg.
  induction Hr as [w h | st w h Hr IH | st m Hr IH Hm]; intros lg Hlg.
  - discriminate.
  - now apply IH.
  - destruct (api_keeps_package m Hm) as [[d ->] | K].
    + destruct (once_done st) eqn:E.
      * rewrite InitLogger_done in Hlg by assumption. now apply IH.
      * rewrite InitLogger_first in Hlg by assumption.
        destruct (Build _ _) as [[e|] w]; simpl in Hlg; [discriminate |].
        injection Hlg as <-. now exists d.
    + destruct (K st) as [_ K2]. rewrite K2 in Hlg. now apply IH.
Qed.

Lemma reachable_logger_enabled (st : State) lg l :
  reachable st -> logger st = Some lg -> (0 <= level_num l)%Z ->
  Enabled (Level_ (config (sugaredLogger lg))) l = true.
Proof.
  intros Hr Hlg Hl. destruct (reachable_logger_config st lg Hr Hlg) as [d ->].
  now apply config_of_enabled.
Qed.

(** The logger a first [InitLogger] that returned has installed is there
    for the rest of the run. *)
Lemma InitLogger_installs (d : bool) (st st1 st' : State) :
  once_done st = false ->
  InitLogger d st = (Returned tt, st1) ->
  reaches st1 st' ->
  logger st' = Some (mkLogger (next_handle st) (mkSugared (config_of d))).
Proof.
  intros Hd Hinit Hreach.
  rewrite (InitLogger_first d st Hd) in Hinit.
  destruct (Build _ _) as [[e|] w]; [discriminate |]. injection Hinit as <-.
  now destruct (reaches_after_guard _ _ Hreach eq_refl) as [_ Hlg].
Qed.

(** X4.  Whatever logger the package has installed was built by
    [NewLogger]: its configuration is the development or the production
    one, so it lets info level and everything above through, and the guard
    is set. *)
Theorem installed_logger_is_from_NewLogger :
  forall (st : State) lg,
    reachable st -> logger st = Some lg ->
    once_done st = true /\
    (exists d, config (sugaredLogger lg) = config_of d) /\
    (forall l, (0 <= level_num l)%Z ->
               Enabled (Level_ (config (sugaredLogger lg))) l = true).
Proof.
  intros st lg Hr Hlg.
  split; [| split; [now apply (reachable_logger_config st) |]].
  - destruct (once_done st) eqn:E; [reflexivity |].
    rewrite (reachable_no_logger st Hr E) in Hlg. discriminate.
  - intros l Hl. now apply (reachable_logger_enabled st).
Qed.

(** X1.  When the first [InitLogger] cannot build its logger it panics
    with "failed to initialize logger", and the guard is set all the same:
    no later [InitLogger] builds one, the handle stays nil for the rest of
    the run, and the logging functions keep ending in a nil dereference. *)
Theorem InitLogger_failure_is_final :
  forall (d : bool) (st : State) buildErr w,
    once_done st = false ->
    Build (config_of d) (world st) = (Some buildErr, w) ->
    let r := InitLogger d st in
    fst r = Panicked (PanicString "failed to initialize logger") /\
    once_done (snd r) = true /\ logger (snd r) = None /\
    next_handle (snd r) = next_handle st /\
    forall st' : State,
      reaches (snd r) st' ->
      logger st' = None /\
      (forall d', InitLogger d' st' = (Returned tt, st')) /\
      (forall msg (kv : list value), fst (Info msg kv st') = Panicked NilDereference) /\
      (forall e msg flag,
          fst (Golog.CheckErr (Some e) msg flag st') = Panicked NilDereference).
Proof.
  intros d st buildErr w Hd Hb. cbv zeta.
  rewrite (InitLogger_first d st Hd), Hb. cbn [fst snd once_done logger next_handle].
  split; [reflexivity |]. split; [reflexivity |]. split; [reflexivity |].
  split; [reflexivity |].
  intros st' Hreach.
  destruct (reaches_after_guard _ _ Hreach eq_refl) as [H1 H2]. cbn [logger] in H2.
  split; [exact H2 |]. split; [intros d'; now apply InitLogger_done |]. split.
  - intros msg kv. unfold Info. now rewrite (get_sugared_nil _ st' H2).
  - intros e msg flag. unfold Golog.CheckErr. destruct flag.
    + now rewrite (get_sugared_nil_bind _ _ st' H2).
    + rewrite bind_ret_l. now rewrite (get_sugared_nil _ st' H2).
Qed.

(** X2.  When [InitLogger] finds the guard unset and returns, its flag
    decides for the rest of the run, whatever flags later calls of
    [InitLogger] carry: the handle is the logger built for that flag; a
    debug call returns, leaving its record when the flag was the
    development one and nothing at all otherwise; an info call returns,
    leaving its record when the flag was the development one, and
    otherwise exactly when zap's sampler admits it. *)
Theorem first_InitLogger_flag_decides :
  forall (d : bool) (st st1 st' : State),
    once_done st = false ->
    InitLogger d st = (Returned tt, st1) ->
    reaches st1 st' ->
    logger st' = Some (mkLogger (next_handle st) (mkSugared (config_of d))) /\
    forall msg (kv : list value),
      fst (Debug msg kv st') = Returned tt /\
      fst (Info msg kv st') = Returned tt /\
      (In (written_of (mkEntry DebugLevel msg kv)) (appended st' (snd (Debug msg kv st')))
       <-> d = true) /\
      (d = false -> appended st' (snd (Debug msg kv st')) = []) /\
      (In (written_of (mkEntry InfoLevel msg kv)) (appended st' (snd (Info msg kv st')))
       <-> d = true \/ Sampled 100 100 (sampled st') InfoLevel msg = true).
Proof.
  intros d st st1 st' Hd Hinit Hreach.
  pose proof (InitLogger_installs d st st1 st' Hd Hinit Hreach) as Hlg.
  split; [exact Hlg |]. intros msg kv. unfold Debug, Info.
  rewrite !(get_sugared _ st' _ Hlg). unfold Sugared.Debugw, Sugared.Infow.
  rewrite !(log_plain _ _ _ _ st' Hlg) by (simpl; lia).
  split; [reflexivity |]. split; [reflexivity |].
  rewrite <- !(log_plain _ _ _ _ st' Hlg) by (simpl; lia).
  destruct (log_debug_config_of _ d msg kv st' Hlg eq_refl) as [H1 H2].
  split; [exact H1 |]. split; [exact H2 |].
  apply (log_seen_config_of _ d InfoLevel msg kv st' Hlg eq_refl). simpl. lia.
Qed.

(** X6.  The termination flag of [CheckErr] of golog.go stops the program
    in development mode only.  When the [InitLogger] that found the guard
    unset returned with the development flag, the call writes the DPanic
    record and panics, and no call at error level follows; with the
    production flag it calls at DPanic level and at error level and
    returns true, and zap writes the record of each of the two calls
    unless its sampler drops it. *)
Theorem golog_CheckErr_flag_by_mode :
  forall (d : bool) (st st1 st' : State) e msg,
    once_done st = false ->
    InitLogger d st = (Returned tt, st1) ->
    reaches st1 st' ->
    let m := Sprintf "%s: %v" [VString msg; VError e] in
    let r := Golog.CheckErr (Some e) msg true st' in
    fst r = (if d then Panicked (LogPanic m) else Returned true) /\
    emitted st' (snd r)
    = (if d then [mkEntry DPanicLevel m []]
       else [mkEntry DPanicLevel m []; mkEntry ErrorLevel m []]) /\
    appended st' (snd r)
    = (if d then [mkWritten DPanicLevel m []]
       else (if Sampled 100 100 (sampled st') DPanicLevel m
             then [mkWritten DPanicLevel m []] else []) ++
            (if Sampled 100 100 (sampled st' ++ [(DPanicLevel, m)]) ErrorLevel m
             then [mkWritten ErrorLevel m []] else [])).
Proof.
  intros d st st1 st' e msg Hd Hinit Hreach. cbv zeta.
  pose proof (InitLogger_installs d st st1 st' Hd Hinit Hreach) as Hlg.
  rewrite (Golog_CheckErr_flag_set st' _ e msg Hlg). cbn [sugaredLogger config].
  unfold written. cbn [List.filter entry_level config].
  destruct d; cbn [config_of Development Level_ fst snd];
    rewrite ?(eq_refl : Enabled DebugLevel DPanicLevel = true),
            ?(eq_refl : Enabled InfoLevel DPanicLevel = true),
            ?(eq_refl : Enabled InfoLevel ErrorLevel = true);
    (split; [reflexivity |]); rewrite emitted_upd; (split; [reflexivity |]);
    rewrite (upd_records st' _ _ _ _ Hlg)
      by (now repeat constructor);
    cbn [sampled_through]; rewrite ?app_nil_r; reflexivity.
Qed.

End Installed.

(** ** More on the four [CheckErr] *)

Section CheckErrMore.
Context {Response World : Type} `{!Externals Response World}.
Abbreviation value := (value Response).
Abbreviation Entry := (Entry Response).
Abbreviation State := (State Response World).
Abbreviation M := (@M Response World).

Lemma no_response_values_cons2 (key val : value) rest :
  no_response_values (key :: val :: rest) ->
  (forall r, val <> VResponse r) /\ no_response_values rest.
Proof.
  intros H. split.
  - intros r ->. now apply (H 1 r).
  - intros i r Hi. apply (H (S (S i)) r). exact Hi.
Qed.

Lemma no_response_values_pad (kv : list value) :
  no_response_values kv -> no_response_values (pad kv).
Proof.
  intros H. unfold pad. destruct (Nat.even (length kv)); [exact H |].
  intros i r Hi Hl. destruct (decide (i < length kv)) as [Hlt | Hge].
  - rewrite lookup_app_l in Hl by assumption. now apply (H i r).
  - rewrite lookup_app_r in Hl by lia.
    destruct (i - length kv) as [|n]; simpl in Hl; [discriminate |].
    now rewrite lookup_nil in Hl.
Qed.

(** Without a response in value position nothing is dumped. *)
Lemma dump_pairs_plain on_fail (kv : list value) w :
  no_response_values kv -> dump_pairs on_fail kv w = (kv, [], w).
Proof.
  induction kv as [|x|key val rest IH] using pair_ind; intros H; try reflexivity.
  destruct (no_response_values_cons2 _ _ _ H) as [Hval Hrest].
  simpl. rewrite (IH Hrest).
  destruct val; try reflexivity. now destruct (Hval r).
Qed.

Lemma take_pad (kv : list value) : take (length kv) (pad kv) = kv.
Proof.
  unfold pad. destruct (Nat.even (length kv)).
  - now apply take_ge.
  - apply take_app_length.
Qed.



(** X7.  A context none of whose values is a response, the empty one
    among them, goes into the call as it is, padded when odd: the call
    returns true, having made one call with "error", the error and the
    context, no dump is made (the world is as before) and the caller's
    slice shows what it showed.  When the keys are strings zap writes one
    record for it, with the fields of the context pair by pair, unless its
    sampler drops it.  [CheckErr] of log.go hands the same sequence over
    as one slice; of that zap makes no field but a complaint, written in
    front of the record of the message, each unless the sampler drops it. *)
Theorem plain_context_passes_verbatim :
  forall (st : State) lg e msg,
    logger st = Some lg ->
    Enabled (Level_ (config (sugaredLogger lg))) ErrorLevel = true ->
    let c := config (sugaredLogger lg) in
    (forall s, valid_slice (heap st) s ->
       no_response_values (read_slice (heap st) s) ->
       let r := LogInPlace.CheckErr (Some e) false msg s st in
       let kv := pad (read_slice (heap st) s) in
       fst r = Returned true /\
       emitted st (snd r) = [mkEntry ErrorLevel msg (VString "error" :: VError e :: kv)] /\
       world (snd r) = world st /\
       read_slice (heap (snd r)) s = read_slice (heap st) s /\
       (string_keys (read_slice (heap st) s) = true ->
        appended st (snd r)
        = if Sugared.sampler_admits c (sampled st) ErrorLevel msg
          then [mkWritten ErrorLevel msg (("error", VError e) :: pair_up kv)] else [])) /\
    (forall s, valid_slice (heap st) s ->
       no_response_values (read_slice (heap st) s) ->
       let r := LogPairs.CheckErr (Some e) false msg s st in
       let kv := pad (read_slice (heap st) s) in
       fst r = Returned true /\
       emitted st (snd r) = [mkEntry ErrorLevel msg (VString "error" :: VError e :: kv)] /\
       world (snd r) = world st /\
       read_slice (heap (snd r)) s = read_slice (heap st) s /\
       (string_keys (read_slice (heap st) s) = true ->
        appended st (snd r)
        = if Sugared.sampler_admits c (sampled st) ErrorLevel msg
          then [mkWritten ErrorLevel msg (("error", VError e) :: pair_up kv)] else [])) /\
    (forall fuel (kv : list value),
       no_response_values kv ->
       let r := Log.CheckErr (S fuel) (Some e) false msg kv st in
       let handed := VSlice (VString "error" :: VError e :: pad kv) in
       fst r = Returned true /\
       emitted st (snd r) = [mkEntry ErrorLevel msg [handed]] /\
       world (snd r) = world st /\
       appended st (snd r)
       = if Sugared.sampler_admits c (sampled st) ErrorLevel msg
         then (if Sugared.sampler_admits c
                    (Sugared.sampler_counts c (sampled st) ErrorLevel msg)
                    ErrorLevel "Ignored key without a value."
               then [mkWritten ErrorLevel "Ignored key without a value."
                       [("ignored", handed)]]
               else []) ++ [mkWritten ErrorLevel msg []]
         else []).
Proof.
  intros st lg e msg Hlg En. cbv zeta.
  assert (Hrec : forall on_fail (kv : list value) w h,
            no_response_values kv -> string_keys kv = true ->
            dump_pairs on_fail (pad kv) (world st) = (pad kv, [], world st) ->
            appended st
              (upd st (written (sugaredLogger lg)
                         ((@warn_entry Response <$> []) ++
                          [mkEntry ErrorLevel msg (VString "error" :: VError e :: pad kv)]))
                   w h)
            = if Sugared.sampler_admits (config (sugaredLogger lg)) (sampled st) ErrorLevel msg
              then [mkWritten ErrorLevel msg (("error", VError e) :: pair_up (pad kv))]
              else []).
  { intros on_fail kv w h Hplain Hk Hdp.
    destruct (call_fields on_fail ErrorLevel msg e _ _ _ _ _ Hdp Hk) as [Hwf Hw].
    rewrite (run_records st lg [] _ w h Hlg Hwf).
    cbn [fmap list_fmap app]. rewrite written_one by exact En.
    cbn [sampled_through entry_level entry_msg]. now rewrite Hw, app_nil_r. }
  split; [| split].
  - intros s Hv Hplain.
    pose proof (dump_pairs_plain keep_response _ (world st)
                  (no_response_values_pad _ Hplain)) as Hdp.
    destruct (LogInPlace_CheckErr_spec st e false msg s lg _ _ _ Hv Hlg Hdp)
      as (h' & -> & Hview).
    cbn [fst snd]. rewrite emitted_upd, world_upd, heap_upd, Hview.
    split; [reflexivity |].
    split; [rewrite written_app; now rewrite (written_one _ (mkEntry _ _ _)) |].
    split; [reflexivity |]. split.
    + destruct (valid_slice_window _ _ Hv) as (_ & _ & _ & _ & Hw & _).
      destruct (Nat.even (s_len s) || (s_len s <? s_cap s)%nat); [| reflexivity].
      rewrite <- Hw. apply take_pad.
    + intros Hk. exact (Hrec keep_response _ _ _ Hplain Hk Hdp).
  - intros s Hv Hplain.
    pose proof (dump_pairs_plain failure_text _ (world st)
                  (no_response_values_pad _ Hplain)) as Hdp.
    destruct (LogPairs_CheckErr_spec st e false msg s lg _ _ _ Hv Hlg Hdp)
      as (h' & -> & Hview).
    cbn [fst snd]. rewrite emitted_upd, world_upd, heap_upd, Hview.
    split; [reflexivity |].
    split; [rewrite written_app; now rewrite (written_one _ (mkEntry _ _ _)) |].
    split; [reflexivity |]. split; [reflexivity |].
    intros Hk. exact (Hrec failure_text _ _ _ Hplain Hk Hdp).
  - intros fuel kv Hplain.
    pose proof (dump_pairs_plain failure_text _ (world st)
                  (no_response_values_pad _ Hplain)) as Hdp.
    rewrite (Log_CheckErr_no_failure fuel st e false msg kv lg _ _ Hlg Hdp).
    cbn [fst snd]. rewrite emitted_upd, world_upd, (appended_upd st lg _ _ _ Hlg).
    rewrite written_one by exact En.
    split; [reflexivity |]. split; [reflexivity |]. split; [reflexivity |].
    exact (core_one_slice (sugaredLogger lg) msg _ (sampled st) En).
Qed.

(** X15.  What zap makes of the call of [CheckErr] of log.go when no dump
    fails, whatever the context: no field.  The slice handed over is one
    argument without a partner, so zap complains at error level, "Ignored
    key without a value.", with the slice as the field "ignored", and
    writes the record of the message without a field, the error not in
    it.  With the flag unset the call returns true; with the flag set the
    record of the message is at panic level, the complaint at error level
    all the same, and the call panics.  The sampler may drop each of the
    two; at error level, when it drops the record of the message there is
    no complaint either. *)
Theorem log_go_record_has_no_field :
  forall (st : State) lg e msg fuel (kv fields : list value) w',
    logger st = Some lg ->
    Enabled (Level_ (config (sugaredLogger lg))) ErrorLevel = true ->
    dump_pairs failure_text (pad kv) (world st) = (fields, [], w') ->
    let c := config (sugaredLogger lg) in
    let handed := VSlice (VString "error" :: VError e :: fields) in
    let complaint := mkWritten ErrorLevel "Ignored key without a value." [("ignored", handed)] in
    (let r := Log.CheckErr (S fuel) (Some e) false msg kv st in
     fst r = Returned true /\
     appended st (snd r)
     = if Sugared.sampler_admits c (sampled st) ErrorLevel msg
       then (if Sugared.sampler_admits c
                  (Sugared.sampler_counts c (sampled st) ErrorLevel msg)
                  ErrorLevel "Ignored key without a value."
             then [complaint] else []) ++ [mkWritten ErrorLevel msg []]
       else []) /\
    (let r := Log.CheckErr (S fuel) (Some e) true msg kv st in
     fst r = Panicked (LogPanic msg) /\
     appended st (snd r)
     = (if Sugared.sampler_admits c
             (Sugared.sampler_counts c (sampled st) PanicLevel msg)
             ErrorLevel "Ignored key without a value."
        then [complaint] else []) ++
       (if Sugared.sampler_admits c (sampled st) PanicLevel msg
        then [mkWritten PanicLevel msg []] else [])).
Proof.
  intros st lg e msg fuel kv fields w' Hlg En Hdp. cbv zeta.
  assert (Enp : Enabled (Level_ (config (sugaredLogger lg))) PanicLevel = true).
  { eapply Enabled_mono; [exact En | simpl; lia]. }
  split.
  - rewrite (Log_CheckErr_no_failure fuel st e false msg kv lg _ _ Hlg Hdp).
    cbn [fst snd]. rewrite (appended_upd st lg _ _ _ Hlg), written_one by exact En.
    split; [reflexivity |].
    exact (core_one_slice (sugaredLogger lg) msg _ (sampled st) En).
  - rewrite (Log_CheckErr_no_failure fuel st e true msg kv lg _ _ Hlg Hdp).
    cbn [fst snd]. rewrite (appended_upd st lg _ _ _ Hlg), written_one by exact Enp.
    split; [reflexivity |].
    exact (core_one_slice_panic (sugaredLogger lg) msg _ (sampled st) En).
Qed.



(** X10.  Whenever a [CheckErr] returns, in whatever state and on whatever
    slice, what it returns tells whether the error was nil: true for an
    error, false for nil. *)
Theorem CheckErr_result_tells_error :
  forall (err : option GoError) (flag : bool) msg (st st' : State) (b : bool),
    let expected := match err with Some _ => true | None => false end in
    (Golog.CheckErr err msg flag st = (Returned b, st') -> b = expected) /\
    (forall fuel (kv : list value),
        Log.CheckErr fuel err flag msg kv st = (Returned b, st') -> b = expected) /\
    (forall s, LogPairs.CheckErr err flag msg s st = (Returned b, st') -> b = expected) /\
    (forall s, LogInPlace.CheckErr err flag msg s st = (Returned b, st') -> b = expected).
Proof.
  intros err flag msg st st' b. cbv zeta. destruct err as [e|].
  - split; [| split; [| split]].
    + unfold Golog.CheckErr. intros H.
      repeat (apply bind_inv in H as (? & ? & _ & H)). now injection H as <-.
    + intros fuel kv H. destruct fuel as [|fuel]; [discriminate |].
      cbn [Log.CheckErr] in H.
      repeat (apply bind_inv in H as (? & ? & _ & H)). now injection H as <-.
    + intros s H. unfold LogPairs.CheckErr in H.
      repeat (apply bind_inv in H as (? & ? & _ & H)). now injection H as <-.
    + intros s H. unfold LogInPlace.CheckErr in H.
      repeat (apply bind_inv in H as (? & ? & _ & H)). now injection H as <-.
  - split; [| split; [| split]].
    + intros H. now injection H as <-.
    + intros fuel kv H. rewrite Log_CheckErr_nil in H. now injection H as <-.
    + intros s H. now injection H as <-.
    + intros s H. now injection H as <-.
Qed.

(** X11.  In log.go a response in value position no dump of which
    succeeds keeps the call from ever returning: the nested call meets the
    same response again, whatever the nesting budget, the flag, the logger
    and the rest of the context are. *)
Theorem Log_CheckErr_never_returns :
  forall fuel e (flag : bool) msg (kv : list value) (st : State) i r,
    kv !! i = Some (VResponse r) -> Nat.even i = false -> always_fails r ->
    forall b st', Log.CheckErr fuel (Some e) flag msg kv st <> (Returned b, st').
Proof.
  induction fuel as [|fuel IHf]; intros e flag msg kv st i r Hi Hodd Hfail b st' Hrun;
    [discriminate |].
  cbn [Log.CheckErr] in Hrun. apply bind_inv in Hrun as (new & st1 & Hpairs & _).
  clear b st'. revert i Hi Hodd st st1 new Hpairs. generalize (@nil value) as acc.
  induction kv as [|x|key val rest IH] using pair_ind; intros acc i Hi Hodd st st1 new Hp.
  - now rewrite lookup_nil in Hi.
  - destruct i as [|i]; [discriminate |]. simpl in Hi. now rewrite lookup_nil in Hi.
  - cbn [Log.pairs] in Hp. apply bind_inv in Hp as (acc1 & st2 & Hstep & Hp).
    destruct i as [|[|i]]; [discriminate | |].
    + simpl in Hi. injection Hi as ->. unfold Log.pair_step in Hstep.
      apply bind_inv in Hstep as (d & st3 & Hd & Hstep).
      rewrite dumpResponse_eq in Hd. injection Hd as <- <-.
      destruct (Hfail (world st)) as (dumpErr & w' & Hdump). rewrite Hdump in Hstep.
      cbn [fst snd] in Hstep.
      apply bind_inv in Hstep as (failed & st4 & Hrec & _).
      exact (IHf dumpErr false _ [VString "response"; VResponse r] _ 1 r
                 eq_refl eq_refl Hfail _ _ Hrec).
    + exact (IH _ i Hi Hodd _ _ _ Hp).
Qed.


End CheckErrMore.

Section StoreAndRun.
Context {Response World : Type} `{!Externals Response World}.
Abbreviation value := (value Response).
Abbreviation Entry := (Entry Response).
Abbreviation State := (State Response World).
Abbreviation M := (@M Response World).

(** The store [LogPairs.CheckErr] leaves: the one the padding left. *)
Lemma LogPairs_CheckErr_store (st : State) e (flag : bool) msg s lg :
  valid_slice (heap st) s ->
  logger st = Some lg ->
  heap (snd (LogPairs.CheckErr (Some e) flag msg s st))
  = if Nat.even (s_len s) then heap st else heap (snd (append1 s placeholder st)).
Proof.
  intros Hv Hlg.
  assert (Hgo : forall (st1 : State) s1 h1,
    heap st1 = h1 -> logger st1 = Some lg ->
    length (read_slice h1 s1) = s_len s1 ->
    Nat.even (s_len s1) = true ->
    heap (snd
      ((let* newKeysAndValues :=
          for_each (key_positions (s_len s1)) (LogPairs.pair_step s1)
                   [VString "error"; VError e] in
        let* p := GetLogger in let* logger := sugared p in
        (if flag
         then Sugared.Panicw logger msg newKeysAndValues
         else Sugared.Errorw logger msg newKeysAndValues) ;;;
        ret true) st1)) = h1).
  { intros st1 s1 h1 <- Hlg1 Hlen Hev.
    destruct (dump_pairs failure_text (read_slice (heap st1) s1) (world st1))
      as [[fields errs] w'] eqn:Hdp.
    pose proof (pairs_loop_spec lg (read_slice (heap st1) s1) [] s1 0 st1
                  [VString "error"; VError e] fields errs w' eq_refl eq_refl
                  ltac:(now rewrite Hlen) Hlg1 Hdp) as Hloop.
    rewrite Hlen in Hloop. unfold key_positions. rewrite even_half by assumption.
    rewrite (bind_returned _ _ _ _ _ Hloop).
    rewrite (get_sugared _ (upd st1 _ w' (heap st1)) lg Hlg1). destruct flag.
    - unfold Sugared.Panicw. now rewrite bind_log_panic by log_side.
    - unfold Sugared.Errorw.
      now rewrite (bind_log_plain _ ErrorLevel) by log_side. }
  destruct (valid_slice_window _ _ Hv) as (front & post & E & Hf & Hw & Hp).
  unfold LogPairs.CheckErr. rewrite mod2_even.
  destruct (Nat.even (s_len s)) eqn:Hev.
  - rewrite bind_ret_l. now apply Hgo.
  - destruct (append1_spec st s placeholder Hv)
      as (s1 & h1 & Happ & Hv1 & Hlen1 & Hread1 & Hold & Hcase).
    fold (@placeholder Response).
    rewrite (bind_returned _ _ _ _ _ Happ). rewrite Happ. cbn [snd]. rewrite heap_upd.
    apply Hgo; auto.
    + rewrite Hread1, length_app, Hw, Hlen1. simpl. lia.
    + rewrite Hlen1, Nat.even_succ, <- Nat.negb_even. now rewrite Hev.
Qed.

(** X13.  What [CheckErr] of the package-log text of golog_test.go does to
    the store.  It never changes what the caller's slice shows.  On a
    slice of even length it changes nothing at all.  On one of odd length
    with spare capacity it overwrites the cell of the caller's array just
    behind the slice with the placeholder; on a full one it leaves every
    array as it was and allocates one more. *)
Theorem LogPairs_CheckErr_store_effects :
  forall (st : State) lg e msg (flag : bool) s,
    valid_slice (heap st) s ->
    logger st = Some lg ->
    let h' := heap (snd (LogPairs.CheckErr (Some e) flag msg s st)) in
    read_slice h' s = read_slice (heap st) s /\
    (Nat.even (s_len s) = true -> h' = heap st) /\
    (Nat.even (s_len s) = false -> s_len s < s_cap s ->
     h' = alter (<[s_off s + s_len s := placeholder]>) (s_arr s) (heap st) /\
     default [] (h' !! s_arr s) !! (s_off s + s_len s) = Some placeholder) /\
    (Nat.even (s_len s) = false -> s_len s = s_cap s ->
     exists a, h' = heap st ++ [a] /\
               take (S (s_len s)) a = read_slice (heap st) s ++ [placeholder]).
Proof.
  intros st lg e msg flag s Hv Hlg. cbv zeta.
  rewrite (LogPairs_CheckErr_store st e flag msg s lg Hv Hlg).
  destruct (valid_slice_window _ _ Hv) as (front & post & E & Hf & Hw & Hp).
  destruct (append1_spec st s placeholder Hv)
    as (s1 & h1 & Happ & Hv1 & Hlen1 & Hread1 & Hold & Hcase).
  split; [| split; [| split]].
  - destruct (Nat.even (s_len s)); [reflexivity |]. rewrite Happ. cbn [snd].
    now rewrite heap_upd.
  - now intros ->.
  - intros -> Hlt. unfold append1.
    assert ((s_len s <? s_cap s)%nat = true) as -> by (now apply Nat.ltb_lt).
    cbn [snd]. unfold set_heap. cbn [heap]. split; [reflexivity |].
    destruct Hv as [Hv1' Hv2']. destruct (heap st !! s_arr s) as [a|] eqn:Ha.
    + rewrite list_lookup_alter_eq, Ha. cbn [fmap option_fmap option_map default].
      simpl in Hv2'. apply list_lookup_insert_eq. lia.
    + simpl in Hv2'. lia.
  - intros -> Hfull. unfold append1.
    assert ((s_len s <? s_cap s)%nat = false) as -> by (apply Nat.ltb_ge; lia).
    cbn [snd]. unfold set_heap. cbn [heap]. eexists. split; [reflexivity |].
    rewrite (cons_middle placeholder), app_assoc. apply take_app_length'.
    rewrite length_app. simpl. lia.
Qed.


End StoreAndRun.

Section PairsNoLogger.
Context {Response World : Type} `{!Externals Response World}.
Abbreviation value := (value Response).
Abbreviation Entry := (Entry Response).
Abbreviation State := (State Response World).
Abbreviation M := (@M Response World).

(** Without a logger the pairing loop either gets through, or stops at the
    first failed dump on the nil dereference. *)
Lemma pairs_loop_no_logger (todo : list value) :
  forall done s j (st : State) acc,
    read_slice (heap st) s = done ++ todo ->
    length done = 2 * j ->
    Nat.even (length todo) = true ->
    logger st = None ->
    exists acc' st',
      (for_each ((fun k => 2 * k) <$> seq j (length todo / 2)) (LogPairs.pair_step s) acc st
       = (Returned acc', st') /\ logger st' = None)
      \/ for_each ((fun k => 2 * k) <$> seq j (length todo / 2)) (LogPairs.pair_step s) acc st
         = (Panicked NilDereference, st').
Proof.
  induction todo as [|x|key val rest IH] using pair_ind;
    intros done s j st acc E Hd Hev Hlg.
  - exists acc, st. left. now split.
  - discriminate.
  - cbn [length]. rewrite div2_SS. cbn [seq fmap list_fmap for_each].
    assert (Hkey : index s (2 * j) st = (Returned key, st)).
    { apply index_read. rewrite E, lookup_app_r by lia.
      now replace (2 * j - length done) with 0 by lia. }
    assert (Hval : index s (2 * j + 1) st = (Returned val, st)).
    { apply index_read. rewrite E, lookup_app_r by lia.
      now replace (2 * j + 1 - length done) with 1 by lia. }
    unfold LogPairs.pair_step at 1 3.
    rewrite !(bind_bind_returned _ _ _ _ _ _ Hkey).
    rewrite !(bind_bind_returned _ _ _ _ _ _ Hval).
    simpl in Hev.
    assert (Hnext : forall (st1 : State) acc1,
      heap st1 = heap st -> logger st1 = None ->
      exists acc' st',
        (for_each ((fun k => 2 * k) <$> seq (S j) (length rest / 2))
                  (LogPairs.pair_step s) acc1 st1 = (Returned acc', st') /\ logger st' = None)
        \/ for_each ((fun k => 2 * k) <$> seq (S j) (length rest / 2))
                    (LogPairs.pair_step s) acc1 st1 = (Panicked NilDereference, st')).
    { intros st1 acc1 Hh Hl1.
      apply (IH (done ++ [key; val]) s (S j) st1 acc1); auto.
      - rewrite Hh, E. now rewrite <- app_assoc.
      - rewrite length_app. simpl. lia. }
    destruct val as [| str | z | e | r | l];
      try (rewrite !bind_ret_l; now apply Hnext).
    rewrite !(bind_bind_returned _ _ _ _ _ _ (dumpResponse_eq r st)).
    destruct (DumpResponse r (world st)) as [[dump | dumpErr] w1]; cbn [fst snd].
    + rewrite !bind_ret_l. now apply Hnext.
    + exists acc, (upd st [] w1 (heap st)). right.
      now rewrite (get_sugared_nil_bind _ _ (upd st [] w1 (heap st)) Hlg).
Qed.

(** X14.  Before [InitLogger] has run, [CheckErr] of the package-log text
    of golog_test.go on a non-nil error ends in the nil dereference as
    well, and so does [CheckErr] of log.go when no dump fails. *)
Theorem CheckErr_pairs_and_log_before_InitLogger :
  forall (st : State) e (flag : bool) msg,
    reachable st -> once_done st = false ->
    (forall s, valid_slice (heap st) s ->
       fst (LogPairs.CheckErr (Some e) flag msg s st) = Panicked NilDereference) /\
    (forall fuel (kv : list value) fields w',
       dump_pairs failure_text (pad kv) (world st) = (fields, [], w') ->
       Log.CheckErr (S fuel) (Some e) flag msg kv st
       = (Panicked NilDereference, upd st [] w' (heap st))).
Proof.
  intros st e flag msg Hr Hd. pose proof (reachable_no_logger st Hr Hd) as Hlg. split.
  - intros s Hv.
    assert (Hgo : forall (st1 : State) s1,
      logger st1 = None -> length (read_slice (heap st1) s1) = s_len s1 ->
      Nat.even (s_len s1) = true ->
      fst ((let* newKeysAndValues :=
              for_each (key_positions (s_len s1)) (LogPairs.pair_step s1)
                       [VString "error"; VError e] in
            let* p := GetLogger in let* logger := sugared p in
            (if flag
             then Sugared.Panicw logger msg newKeysAndValues
             else Sugared.Errorw logger msg newKeysAndValues) ;;;
            ret true) st1) = Panicked NilDereference).
    { intros st1 s1 Hlg1 Hlen Hev.
      destruct (pairs_loop_no_logger (read_slice (heap st1) s1) [] s1 0 st1
                  [VString "error"; VError e] eq_refl eq_refl
                  ltac:(now rewrite Hlen) Hlg1) as (acc' & st2 & [[Hret Hl2] | Hp]);
        rewrite Hlen in *; unfold key_positions; rewrite even_half by assumption.
      - rewrite (bind_returned _ _ _ _ _ Hret). now rewrite (get_sugared_nil _ st2 Hl2).
      - now rewrite (bind_panicked _ _ _ _ _ Hp). }
    destruct (valid_slice_window _ _ Hv) as (front & post & E & Hf & Hw & Hp).
    unfold LogPairs.CheckErr. rewrite mod2_even.
    destruct (Nat.even (s_len s)) eqn:Hev.
    + rewrite bind_ret_l. now apply Hgo.
    + destruct (append1_spec st s placeholder Hv)
        as (s1 & h1 & Happ & Hv1 & Hlen1 & Hread1 & Hold & Hcase).
      fold (@placeholder Response).
      rewrite (bind_returned _ _ _ _ _ Happ).
      apply Hgo; auto.
      * rewrite heap_upd, Hread1, length_app, Hw, Hlen1. simpl. lia.
      * rewrite Hlen1, Nat.even_succ, <- Nat.negb_even. now rewrite Hev.
  - intros fuel kv fields w' Hdp. cbn [Log.CheckErr].
    rewrite (bind_returned _ _ _ _ _ (Log_pairs_no_failure fuel kv [] st fields w' Hdp)).
    destruct flag.
    + now rewrite (get_sugared_nil_bind _ _ (upd st [] w' (heap st)) Hlg).
    + rewrite bind_ret_l. now rewrite (get_sugared_nil _ (upd st [] w' (heap st)) Hlg).
Qed.

End PairsNoLogger.

(** ** The further properties at work on the sample *)

Lemma InitLogger_failure_is_final_witness :
  let st := initial (Response := Sample.resp) 0 [] in
  once_done st = false /\
  @Build _ _ Sample.broken_build (config_of true) (world st)
  = (Some (mkError "couldn't open sink"), 0) /\
  fst (@InitLogger _ _ Sample.broken_build true st)
  = Panicked (PanicString "failed to initialize logger").
Proof.
  cbv zeta. split; [reflexivity |]. split; [reflexivity |].
  apply (@InitLogger_failure_is_final _ _ Sample.broken_build true
           (initial (Response := Sample.resp) 0 []) (mkError "couldn't open sink") 0
           eq_refl eq_refl).
Defined.

Lemma first_InitLogger_flag_decides_witness :
  let st := initial (Response := Sample.resp) 0 [] in
  let st1 := mkState true (Some (mkLogger 0 (mkSugared (config_of false)))) 1 [] 0 [] [] [] in
  let st' := snd (InitLogger true st1) in
  once_done st = false /\ InitLogger false st = (Returned tt, st1) /\ reaches st1 st' /\
  fst (Debug "cache miss" [] st') = Returned tt /\
  appended st' (snd (Debug "cache miss" [] st')) = [].
Proof.
  cbv zeta. split; [reflexivity |]. split; [reflexivity |].
  assert (Hreach : reaches
            (mkState (Response := Sample.resp) true
               (Some (mkLogger 0 (mkSugared (config_of false)))) 1 [] 0 [] [] [])
            (snd (InitLogger true
               (mkState (Response := Sample.resp) true
                  (Some (mkLogger 0 (mkSugared (config_of false)))) 1 [] 0 [] [] [])))).
  { apply reaches_call; [apply reaches_refl | apply api_InitLogger]. }
  split; [exact Hreach |].
  assert (Hinit : InitLogger false (initial (Response := Sample.resp) 0 [])
                  = (Returned tt,
                     mkState true (Some (mkLogger 0 (mkSugared (config_of false))))
                             1 [] 0 [] [] []))
    by reflexivity.
  destruct (proj2 (first_InitLogger_flag_decides false
                     (initial (Response := Sample.resp) 0 [])
                     (mkState (Response := Sample.resp) true
                        (Some (mkLogger 0 (mkSugared (config_of false)))) 1 [] 0 [] [] [])
                     (snd (InitLogger true
                        (mkState (Response := Sample.resp) true
                           (Some (mkLogger 0 (mkSugared (config_of false)))) 1 [] 0 [] [] [])))
                     eq_refl Hinit Hreach) "cache miss" [])
    as (H1 & _ & _ & H4 & _).
  split; [exact H1 | exact (H4 eq_refl)].
Defined.

Lemma installed_logger_is_from_NewLogger_witness :
  let st := snd (InitLogger true (initial (Response := Sample.resp) 0 [])) in
  let lg := mkLogger 0 (mkSugared (config_of true)) in
  reachable st /\ logger st = Some lg /\ once_done st = true.
Proof.
  cbv zeta.
  assert (Hr : reachable (snd (InitLogger true (initial (Response := Sample.resp) 0 [])))).
  { apply reach_call; [apply reach_initial | apply api_InitLogger]. }
  split; [exact Hr |]. split; [reflexivity |].
  apply (installed_logger_is_from_NewLogger _ (mkLogger 0 (mkSugared (config_of true)))
           Hr eq_refl).
Defined.


Lemma golog_CheckErr_flag_by_mode_witness :
  let st := initial (Response := Sample.resp) 0 [] in
  let st1 := mkState true (Some (mkLogger 0 (mkSugared (config_of false)))) 1 [] 0 [] [] [] in
  let m := Sprintf "%s: %v" [VString "request failed"; VError Sample.e1] in
  once_done st = false /\ InitLogger false st = (Returned tt, st1) /\ reaches st1 st1 /\
  fst (Golog.CheckErr (Some Sample.e1) "request failed" true st1) = Returned true /\
  appended st1 (snd (Golog.CheckErr (Some Sample.e1) "request failed" true st1))
  = [mkWritten DPanicLevel m []; mkWritten ErrorLevel m []].
Proof.
  cbv zeta. split; [reflexivity |]. split; [reflexivity |].
  split; [apply reaches_refl |].
  assert (Hinit : InitLogger false (initial (Response := Sample.resp) 0 [])
                  = (Returned tt,
                     mkState true (Some (mkLogger 0 (mkSugared (config_of false))))
                             1 [] 0 [] [] []))
    by reflexivity.
  destruct (golog_CheckErr_flag_by_mode false (initial (Response := Sample.resp) 0 [])
              (mkState (Response := Sample.resp) true
                 (Some (mkLogger 0 (mkSugared (config_of false)))) 1 [] 0 [] [] [])
              (mkState (Response := Sample.resp) true
                 (Some (mkLogger 0 (mkSugared (config_of false)))) 1 [] 0 [] [] [])
              Sample.e1 "request failed" eq_refl Hinit (reaches_refl _))
    as (H1 & _ & H3).
  split; [exact H1 | exact H3].
Defined.

Lemma plain_context_passes_verbatim_witness :
  let st := Sample.ready [[VString "attempt"; VInt 3; VString "host"]] in
  let s := mkSlice 0 0 3 3 in
  let r := LogInPlace.CheckErr (Some Sample.e1) false "request failed" s st in
  logger st = Some Sample.dev /\
  Enabled (Level_ (config (sugaredLogger Sample.dev))) ErrorLevel = true /\
  valid_slice (heap st) s /\ no_response_values (read_slice (heap st) s) /\
  string_keys (read_slice (heap st) s) = true /\
  emitted st (snd r)
  = [mkEntry ErrorLevel "request failed"
       (VString "error" :: VError Sample.e1 :: pad (read_slice (heap st) s))] /\
  appended st (snd r)
  = [mkWritten ErrorLevel "request failed"
       [("error", VError Sample.e1); ("attempt", VInt 3);
        ("host", VString "<missing value>")]].
Proof.
  cbv zeta. split; [reflexivity |]. split; [reflexivity |].
  assert (Hv : valid_slice
                 (heap (Sample.ready [[VString "attempt"; VInt 3; VString "host"]]))
                 (mkSlice 0 0 3 3)) by (split; simpl; lia).
  assert (Hp : no_response_values
                 (read_slice
                    (heap (Sample.ready [[VString "attempt"; VInt 3; VString "host"]]))
                    (mkSlice 0 0 3 3))).
  { intros [|[|[|i]]] r _ Hl; simpl in Hl; discriminate. }
  split; [exact Hv |]. split; [exact Hp |]. split; [reflexivity |].
  destruct (proj1 (plain_context_passes_verbatim
                     (Sample.ready [[VString "attempt"; VInt 3; VString "host"]])
                     Sample.dev Sample.e1 "request failed" eq_refl eq_refl)
                  (mkSlice 0 0 3 3) Hv Hp) as (_ & H2 & _ & _ & H5).
  split; [exact H2 | exact (H5 eq_refl)].
Defined.



Lemma CheckErr_result_tells_error_witness :
  let st := Sample.ready [] in
  let st' := snd (Golog.CheckErr (Some Sample.e1) "request failed" false st) in
  Golog.CheckErr (Some Sample.e1) "request failed" false st = (Returned true, st') /\
  true = match Some Sample.e1 with Some _ => true | None => false end.
Proof.
  cbv zeta. split; [reflexivity |].
  exact (proj1 (CheckErr_result_tells_error (Some Sample.e1) false "request failed"
                  (Sample.ready [])
                  (snd (Golog.CheckErr (Some Sample.e1) "request failed" false
                          (Sample.ready [])))
                  true)
               eq_refl).
Defined.

Lemma Log_CheckErr_never_returns_witness :
  let kv := [VString "attempt"; VInt 3; VString "resp"; VResponse Sample.Closed] in
  kv !! 3 = Some (VResponse Sample.Closed) /\ Nat.even 3 = false /\
  always_fails Sample.Closed /\
  forall b st',
    Log.CheckErr 5 (Some Sample.e1) false "request failed" kv (Sample.ready [])
    <> (Returned b, st').
Proof.
  cbv zeta.
  assert (Hf : always_fails Sample.Closed).
  { intros w. exists (mkError "http: read on closed response body"), (S w). reflexivity. }
  split; [reflexivity |]. split; [reflexivity |]. split; [exact Hf |].
  exact (Log_CheckErr_never_returns 5 Sample.e1 false "request failed"
           [VString "attempt"; VInt 3; VString "resp"; VResponse Sample.Closed]
           (Sample.ready []) 3 Sample.Closed eq_refl eq_refl Hf).
Defined.


Lemma LogPairs_CheckErr_store_effects_witness :
  let st := Sample.ready [[VString "host"; VString "behind"]] in
  let s := mkSlice 0 0 1 2 in
  let h' := heap (snd (LogPairs.CheckErr (Some Sample.e1) false "request failed" s st)) in
  valid_slice (heap st) s /\ logger st = Some Sample.dev /\
  Nat.even (s_len s) = false /\ s_len s < s_cap s /\
  read_slice h' s = read_slice (heap st) s /\
  default [] (h' !! s_arr s) !! (s_off s + s_len s) = Some placeholder.
Proof.
  cbv zeta.
  assert (Hv : valid_slice (heap (Sample.ready [[VString "host"; VString "behind"]]))
                 (mkSlice 0 0 1 2)) by (split; simpl; lia).
  assert (Hlt : s_len (mkSlice 0 0 1 2) < s_cap (mkSlice 0 0 1 2)) by (simpl; lia).
  split; [exact Hv |]. split; [reflexivity |]. split; [reflexivity |]. split; [exact Hlt |].
  pose proof (LogPairs_CheckErr_store_effects
                (Sample.ready [[VString "host"; VString "behind"]])
                Sample.dev Sample.e1 "request failed" false (mkSlice 0 0 1 2) Hv eq_refl)
    as (H1 & _ & H3 & _).
  split; [exact H1 | exact (proj2 (H3 eq_refl Hlt))].
Defined.

Lemma CheckErr_pairs_and_log_before_InitLogger_witness :
  let st := initial (Response := Sample.resp) 0 [[VString "attempt"; VInt 3]] in
  let s := mkSlice 0 0 2 2 in
  reachable st /\ once_done st = false /\ valid_slice (heap st) s /\
  fst (LogPairs.CheckErr (Some Sample.e1) false "request failed" s st)
  = Panicked NilDereference.
Proof.
  cbv zeta.
  assert (Hv : valid_slice
                 (heap (initial (Response := Sample.resp) 0 [[VString "attempt"; VInt 3]]))
                 (mkSlice 0 0 2 2)) by (split; simpl; lia).
  split; [apply reach_initial |]. split; [reflexivity |]. split; [exact Hv |].
  exact (proj1 (CheckErr_pairs_and_log_before_InitLogger
                  (initial (Response := Sample.resp) 0 [[VString "attempt"; VInt 3]])
                  Sample.e1 false "request failed" (reach_initial _ _) eq_refl)
               (mkSlice 0 0 2 2) Hv).
Defined.

Lemma log_go_record_has_no_field_witness :
  let st := Sample.ready [] in
  let kv := [VString "resp"; VResponse Sample.Healthy] in
  let handed := VSlice [VString "error"; VError Sample.e1; VString "resp";
                        VString "HTTP/1.1 500 Internal Server Error"] in
  logger st = Some Sample.dev /\
  Enabled (Level_ (config (sugaredLogger Sample.dev))) ErrorLevel = true /\
  dump_pairs failure_text (pad kv) (world st)
  = ([VString "resp"; VString "HTTP/1.1 500 Internal Server Error"], [], 1) /\
  appended st (snd (Log.CheckErr 1 (Some Sample.e1) false "request failed" kv st))
  = [mkWritten ErrorLevel "Ignored key without a value." [("ignored", handed)];
     mkWritten ErrorLevel "request failed" []].
Proof.
  cbv zeta. split; [reflexivity |]. split; [reflexivity |].
  assert (Hdp : dump_pairs failure_text
                  (pad [VString "resp"; VResponse Sample.Healthy])
                  (world (Sample.ready []))
                = ([VString "resp"; VString "HTTP/1.1 500 Internal Server Error"], [], 1))
    by reflexivity.
  split; [exact Hdp |].
  exact (proj2 (proj1 (log_go_record_has_no_field (Sample.ready []) Sample.dev Sample.e1
                         "request failed" 0 [VString "resp"; VResponse Sample.Healthy]
                         _ _ eq_refl eq_refl Hdp))).
Defined.
